(** * The import index of the Closure completion server

    A shallow embedding of [server/src/server.ts]: the class [ImportDB]
    ([removeFile], [scanFile], [getCompletions]), the handler of
    [onDidChangeWatchedFiles] and the filters of [scanWorkspace], together
    with the string and regular-expression primitives the line handler
    relies on.

    Modelling conventions.
    - A JavaScript string is a [string]; a code unit is an [ascii].
    - [imports] is a JavaScript [Map] whose iteration order is observable
      through [Array.from(this.imports.values())]; it is an association list
      in insertion order with the [Map] operations written out.
    - [files] is a JavaScript [Map] that is only ever accessed through
      [has], [get], [set] and [delete]; it is a [gmap].
    - [scanFile] reads its file through a line reader and returns as soon as
      the reader is created.  The reader's ['line'] events and its ['close']
      event are run by the event loop afterwards, one handler at a time, in
      between other calls and the events of other readers; each is a step of
      its own on a state that holds the index and the readers at work.  The
      lines a reader delivers are an argument of the model.
    - [scan_whole] is the scan whose events nothing interrupts; it is derived
      from the handlers and shown to be what the event loop does in that
      case.
    - An array has an identity besides its contents; [getCompletions] hands
      out the cached array itself, so arrays carry an allocation number.
    - [logger.info] and the snapshot written with [writeFileSync] never feed
      back into the index; they are left out of the state. *)

From Stdlib Require Import ZArith Ascii Lia.
From stdpp Require Import gmap strings list.

Local Open Scope Z_scope.

(** ** String primitives *)

(** [s.startsWith(p)] *)
Fixpoint startsWith (s p : string) {struct p} : bool :=
  match p with
  | EmptyString => true
  | String a p' =>
      match s with
      | EmptyString => false
      | String b s' => Ascii.eqb a b && startsWith s' p'
      end
  end.

Fixpoint indexOf_from (s sub : string) (i : Z) : Z :=
  if startsWith s sub then i
  else match s with
       | EmptyString => -1
       | String _ s' => indexOf_from s' sub (i + 1)
       end.

(** [s.indexOf(sub)]: the first position of [sub] in [s], or [-1]. *)
Definition indexOf (s sub : string) : Z := indexOf_from s sub 0.

Fixpoint lastIndexOf_from (s sub : string) (i : Z) : Z :=
  match s with
  | EmptyString => if startsWith s sub then i else -1
  | String _ s' =>
      let r := lastIndexOf_from s' sub (i + 1) in
      if r =? -1 then (if startsWith s sub then i else -1) else r
  end.

(** [s.lastIndexOf(sub)]: the last position of [sub] in [s], or [-1]. *)
Definition lastIndexOf (s sub : string) : Z := lastIndexOf_from s sub 0.

Fixpoint string_drop (n : nat) (s : string) : string :=
  match n, s with
  | O, _ => s
  | S _, EmptyString => EmptyString
  | S n', String _ s' => string_drop n' s'
  end.

(** [s.substr(start)]: a negative [start] counts from the end. *)
Definition substr (s : string) (start : Z) : string :=
  let len := Z.of_nat (String.length s) in
  let from := if start <? 0 then Z.max (len + start) 0 else start in
  string_drop (Z.to_nat from) s.

(** A string is truthy when it is not empty. *)
Definition truthy (s : string) : bool :=
  match s with EmptyString => false | String _ _ => true end.

(** ** The regular expression [/declare module 'goog:(.+)'/] *)

(** [.] matches every code unit but a line terminator. *)
Definition is_line_terminator (c : ascii) : bool :=
  Ascii.eqb c "010" || Ascii.eqb c "013".

(** The longest run of [.] at the head of [s]. *)
Fixpoint dot_run (s : string) : string :=
  match s with
  | EmptyString => EmptyString
  | String c s' =>
      if is_line_terminator c then EmptyString else String c (dot_run s')
  end.

(** What precedes the last quote of [s]. *)
Fixpoint before_last_quote (s : string) : option string :=
  match s with
  | EmptyString => None
  | String c s' =>
      match before_last_quote s' with
      | Some t => Some (String c t)
      | None => if Ascii.eqb c "'" then Some EmptyString else None
      end
  end.

(** [(.+)'] anchored at the head of [s]: the greedy [.+] takes the whole run
    and gives code units back until a quote follows; it keeps at least one. *)
Definition capture_group (s : string) : option string :=
  match dot_run s with
  | EmptyString => None
  | String c r => String c <$> before_last_quote r
  end.

Definition declare_prefix : string := "declare module 'goog:".

(** The regular expression anchored at the head of [s]. *)
Definition match_here (s : string) : option string :=
  if startsWith s declare_prefix
  then capture_group (string_drop (String.length declare_prefix) s)
  else None.

(** [line.match(/declare module 'goog:(.+)'/)]: the leftmost match; the
    result is [match[1]]. *)
Fixpoint match_declare (line : string) : option string :=
  match match_here line with
  | Some ns => Some ns
  | None =>
      match line with
      | EmptyString => None
      | String _ rest => match_declare rest
      end
  end.

(** ** Constants of the module *)

Definition wildcardBlacklists : list string :=
  [ "goog.i18n.CompactNumberFormatSymbols"; "goog.i18n.DateTimePatterns";
    "goog.i18n.DateTimeSymbols"; "goog.i18n.NumberFormatSymbols";
    "goog.labs.i18n.ListFormat" ].

Definition deprecated : gset string :=
  list_to_set
  [ "goog.Delay"; "goog.Throttle"; "goog.dom.classes";
    "goog.fs.Error.ErrorCode"; "goog.fx.Animation.EventType";
    "goog.fx.Animation.State"; "goog.graphics";
    "goog.i18n.currencyCodeMapTier2"; "goog.i18n.currencyCodeMap";
    "goog.json.EvalJsonProcessor"; "goog.net.MockIFrameIo"; "goog.result";
    "goog.structs.Map"; "goog.structs.Set"; "goog.testing.AsyncTestCase";
    "goog.testing.ContinuationTestCase"; "goog.testing.DeferredTestCase";
    "goog.ui.AttachableMenu"; "goog.ui.Button.Side";
    "goog.ui.ImagelessButtonRenderer"; "goog.ui.ImagelessMenuButtonRenderer";
    "goog.ui.Menu.EventType"; "goog.ui.MenuBase"; "goog.ui.ServerChart";
    "goog.ui.TabPane"; "goog.vec.ArrayType"; "goog.History.EventType";
    "goog.History.Event" ].

(** The loop over [wildcardBlacklists]: does some entry start [ns]? *)
Definition blacklisted (ns : string) : bool :=
  existsb (fun prefix => startsWith ns prefix) wildcardBlacklists.

(** ** Data model *)

Record ImportInfo : Type := {
  name : string;
  namespace : string;
  module : bool;
  sourcepath : string
}.

(** The insertion-ordered [Map<string, V>]. *)
Module JsMap.
Section Ops.
Context {V : Type}.

Fixpoint get (k : string) (m : list (string * V)) : option V :=
  match m with
  | [] => None
  | (k', v) :: m' => if String.eqb k k' then Some v else get k m'
  end.

Definition has (k : string) (m : list (string * V)) : bool :=
  match get k m with Some _ => true | None => false end.

(** A present key keeps its place, a new key goes last. *)
Fixpoint set (k : string) (v : V) (m : list (string * V)) : list (string * V) :=
  match m with
  | [] => [(k, v)]
  | (k', v') :: m' =>
      if String.eqb k k' then (k', v) :: m' else (k', v') :: set k v m'
  end.

Fixpoint delete (k : string) (m : list (string * V)) : list (string * V) :=
  match m with
  | [] => []
  | (k', v') :: m' =>
      if String.eqb k k' then delete k m' else (k', v') :: delete k m'
  end.

Definition values (m : list (string * V)) : list V := map snd m.

End Ops.
End JsMap.

(** The suggestion records of the language-server protocol. *)
Record Position : Type := { line : Z; character : Z }.

Record Range : Type := { range_start : Position; range_end : Position }.

Record TextEdit : Type := { range : Range; newText : string }.

Inductive CompletionItemKind : Type := KindClass | KindModule.

(** The protocol's numbering: [Class = 7], [Module = 9]. *)
Definition kind_code (k : CompletionItemKind) : Z :=
  match k with KindClass => 7 | KindModule => 9 end.

Record CompletionItem : Type := {
  label : string;
  detail : string;
  kind : CompletionItemKind;
  additionalTextEdits : list TextEdit;
  commitCharacters : list string
}.

(** An array of suggestions: the object ([array_id]) and what it holds. *)
Record CompletionArray : Type := {
  array_id : nat;
  array_items : list CompletionItem
}.

(** The fields of [ImportDB]; [allocated] counts the suggestion arrays
    created so far and names the next one. *)
Record ImportDB : Type := {
  imports : list (string * ImportInfo);
  files : gmap string (list string);
  workspace : option string;
  completions : option CompletionArray;
  allocated : nat
}.

(** [new ImportDB(logger)] *)
Definition new_ImportDB : ImportDB :=
  {| imports := []; files := ∅; workspace := None; completions := None;
     allocated := O |}.

(** ** [removeFile] *)

Definition removeFile (path : string) (db : ImportDB) : ImportDB :=
  match files db !! path with
  | Some ns =>
      {| imports := foldl (fun m n => JsMap.delete n m) (imports db) ns;
         files := delete path (files db);
         workspace := workspace db;
         completions := None;
         allocated := allocated db |}
  | None => db
  end.

(** ** The handlers of [scanFile]'s reader *)

(** The variables the ['line'] handler closes over. *)
Module Scan.

Record locals : Type := {
  namespace : string;
  name : string;
  skip : string;
  found : list string
}.

Definition init : locals :=
  {| namespace := ""; name := ""; skip := ""; found := [] |}.

Definition set_namespace (v : string) (st : locals) : locals :=
  {| namespace := v; name := name st; skip := skip st; found := found st |}.

Definition set_name (v : string) (st : locals) : locals :=
  {| namespace := namespace st; name := v; skip := skip st; found := found st |}.

Definition set_skip (v : string) (st : locals) : locals :=
  {| namespace := namespace st; name := name st; skip := v; found := found st |}.

Definition set_found (v : list string) (st : locals) : locals :=
  {| namespace := namespace st; name := name st; skip := skip st;
     found := v |}.

Definition push_found (v : string) (st : locals) : locals :=
  {| namespace := namespace st; name := name st; skip := skip st;
     found := found st ++ [v] |}.

End Scan.

(** The first branch of the handler: the line matched the declaration
    pattern and [ns] is [match[1]]. *)
Definition on_declare (ns : string) (st : Scan.locals) : Scan.locals :=
  let st := Scan.set_namespace ns st in
  if truthy (Scan.skip st) && startsWith (Scan.namespace st) (Scan.skip st)
  then Scan.set_namespace "" st
  else
    let st := if truthy (Scan.skip st) then Scan.set_skip "" st else st in
    if blacklisted (Scan.namespace st)
    then Scan.set_namespace "" st
    else if bool_decide (Scan.namespace st ∈ deprecated)
    then Scan.set_namespace "" (Scan.set_skip (Scan.namespace st +:+ ".") st)
    else
      let dot := lastIndexOf (Scan.namespace st) "." in
      Scan.set_name
        (if dot =? -1 then Scan.namespace st
         else substr (Scan.namespace st) (dot + 1)) st.

(** The body shared by the two export-marker branches. *)
Definition on_export (path : string) (is_module : bool)
    (s : list (string * ImportInfo) * Scan.locals)
    : list (string * ImportInfo) * Scan.locals :=
  let '(m, st) := s in
  if JsMap.has (Scan.namespace st) m then (m, st)
  else
    (JsMap.set (Scan.namespace st)
       {| name := Scan.name st; namespace := Scan.namespace st;
          module := is_module; sourcepath := path |} m,
     Scan.push_found (Scan.namespace st) st).

(** The ['line'] handler. *)
Definition on_line (path : string)
    (s : list (string * ImportInfo) * Scan.locals) (l : string)
    : list (string * ImportInfo) * Scan.locals :=
  match match_declare l with
  | Some ns => (s.1, on_declare ns s.2)
  | None =>
      if truthy (Scan.namespace s.2) && negb (indexOf l "export = alias" =? -1)
      then on_export path true s
      else if truthy (Scan.namespace s.2)
                && negb (indexOf l "export default alias" =? -1)
      then on_export path false s
      else s
  end.

(** The ['close'] handler. *)
Definition on_close (path : string) (db : ImportDB)
    (s : list (string * ImportInfo) * Scan.locals) : ImportDB :=
  if (0 <? Z.of_nat (length (Scan.found s.2)))
  then {| imports := s.1;
          files := <[path := Scan.found s.2]> (files db);
          workspace := workspace db;
          completions := None;
          allocated := allocated db |}
  else {| imports := s.1;
          files := files db;
          workspace := workspace db;
          completions := completions db;
          allocated := allocated db |}.

(** ** [getCompletions] *)

Definition Position_create (l c : Z) : Position :=
  {| line := l; character := c |}.

Definition TextEdit_insert (p : Position) (text : string) : TextEdit :=
  {| range := {| range_start := p; range_end := p |}; newText := text |}.

(** The body of the loop over [imports]. *)
Definition completion_item (i : ImportInfo) : CompletionItem :=
  let module_ := if module i then "* as " else "" in
  let importText :=
    "import " +:+ module_ +:+ name i +:+ " from 'goog:" +:+ namespace i
      +:+ "';" +:+ String "010" "" in
  let addImport := TextEdit_insert (Position_create 0 0) importText in
  {| label := name i;
     detail := "Auto import " +:+ namespace i;
     kind := if module i then KindModule else KindClass;
     additionalTextEdits := [addImport];
     commitCharacters := ["."] |}.

Section Completions.

(** [PrebakedClosure] is imported from [./prebaked]; the index is verified
    for every value of that table. *)
Variable PrebakedClosure : list ImportInfo.

(** The list the loop of [getCompletions] runs over. *)
Definition completion_sources (m : list (string * ImportInfo))
    : list ImportInfo :=
  if negb (JsMap.has "goog.ui.Component" m)
  then JsMap.values m ++ PrebakedClosure
  else JsMap.values m.

(** The call returns the array and leaves the index with the cache set. *)
Definition getCompletions (db : ImportDB) : CompletionArray * ImportDB :=
  match completions db with
  | Some a => (a, db)
  | None =>
      let a := {| array_id := allocated db;
                  array_items :=
                    completion_item <$> completion_sources (imports db) |} in
      (a, {| imports := imports db;
             files := files db;
             workspace := workspace db;
             completions := Some a;
             allocated := S (allocated db) |})
  end.

End Completions.

(** ** [scanFile] and the events of its reader

    [scanFile] returns once it has called [removeFile] and created its line
    reader; the reader's ['line'] events and its ['close'] event run later,
    one handler at a time, in between other calls and the events of other
    readers.  A reader emits its lines in order and then closes. *)

(** A line reader that has not closed: the path of its scan, the lines it
    has still to emit, and the variables its handlers close over. *)
Record reader : Type := {
  reader_path : string;
  reader_pending : list string;
  reader_locals : Scan.locals
}.

(** The index and the readers at work; [started] numbers the next reader. *)
Record server : Type := {
  server_db : ImportDB;
  readers : gmap nat reader;
  started : nat
}.

Definition new_server : server :=
  {| server_db := new_ImportDB; readers := ∅; started := O |}.

Definition set_imports (m : list (string * ImportInfo)) (db : ImportDB)
    : ImportDB :=
  {| imports := m; files := files db; workspace := workspace db;
     completions := completions db; allocated := allocated db |}.

(** The call: [removeFile], then a reader for [path] with the variables
    [namespace], [name], [skip] and [found] at their initial values and the
    two handlers registered.  No handler has run when the call returns;
    [lines] is what the reader will read from the file. *)
Definition scanFile (path : string) (lines : list string) (sv : server)
    : server :=
  {| server_db := removeFile path (server_db sv);
     readers := <[started sv := {| reader_path := path;
                                   reader_pending := lines;
                                   reader_locals := Scan.init |}]>
                  (readers sv);
     started := S (started sv) |}.

(** [removeFile] called on the server. *)
Definition removeFile_call (path : string) (sv : server) : server :=
  {| server_db := removeFile path (server_db sv);
     readers := readers sv; started := started sv |}.

(** The next event of the reader [id]: its next ['line'], or ['close'] when
    it has emitted all its lines. *)
Definition emit (id : nat) (sv : server) : server :=
  match readers sv !! id with
  | None => sv
  | Some r =>
      match reader_pending r with
      | l :: ls =>
          let s := on_line (reader_path r)
                     (imports (server_db sv), reader_locals r) l in
          {| server_db := set_imports s.1 (server_db sv);
             readers := <[id := {| reader_path := reader_path r;
                                   reader_pending := ls;
                                   reader_locals := s.2 |}]> (readers sv);
             started := started sv |}
      | [] =>
          {| server_db := on_close (reader_path r) (server_db sv)
                            (imports (server_db sv), reader_locals r);
             readers := delete id (readers sv);
             started := started sv |}
      end
  end.

(** A call into the index; [ScanFile] carries the content its reader will
    emit. *)
Inductive call : Type :=
| ScanFile (path : string) (lines : list string)
| RemoveFile (path : string)
| GetCompletions.

(** What the event loop runs: a call into the index, or a reader's event. *)
Inductive event : Type :=
| Call (c : call)
| Emit (id : nat).

Definition step (prebaked : list ImportInfo) (sv : server) (e : event)
    : server :=
  match e with
  | Call (ScanFile path lines) => scanFile path lines sv
  | Call (RemoveFile path) => removeFile_call path sv
  | Call GetCompletions =>
      {| server_db := (getCompletions prebaked (server_db sv)).2;
         readers := readers sv; started := started sv |}
  | Emit id => emit id sv
  end.

Definition events_run (prebaked : list ImportInfo) (es : list event)
    (sv : server) : server :=
  foldl (step prebaked) sv es.

(** ** A scan that nothing interrupts

    When the reader of a scan emits all its lines and closes before anything
    else runs, the handlers compose into one function of the index. *)

(** All ['line'] events of one scan, one after the other. *)
Definition scan_lines (path : string) (lines : list string)
    (m : list (string * ImportInfo))
    : list (string * ImportInfo) * Scan.locals :=
  foldl (on_line path) (m, Scan.init) lines.

(** [removeFile], every ['line'] event and the ['close'] event of one scan
    in a row. *)
Definition scan_whole (path : string) (lines : list string) (db : ImportDB)
    : ImportDB :=
  let db := removeFile path db in
  on_close path db (scan_lines path lines (imports db)).

(** The events of such a scan: the call, one event of the reader [id] per
    line, and its close. *)
Definition scan_events (path : string) (lines : list string) (id : nat)
    : list event :=
  Call (ScanFile path lines)
  :: replicate (length lines) (Emit id) ++ [Emit id].

(** Calls that each wait for the reader of the one before. *)
Definition call_whole (prebaked : list ImportInfo) (db : ImportDB)
    (c : call) : ImportDB :=
  match c with
  | ScanFile path lines => scan_whole path lines db
  | RemoveFile path => removeFile path db
  | GetCompletions => (getCompletions prebaked db).2
  end.

Definition run_whole (prebaked : list ImportInfo) (cs : list call)
    (db : ImportDB) : ImportDB :=
  foldl (call_whole prebaked) db cs.

(** What the reverse mapping lists for [path]: nothing when it has no row. *)
Definition listed (path : string) (db : ImportDB) : list string :=
  default [] (files db !! path).

(** The namespaces a file yields when nothing is indexed yet. *)
Definition declares (lines : list string) : list string :=
  Scan.found (scan_lines "" lines []).2.

(** ** Invariants *)

(** An entry a scan of [path] adds to the map [m] it started from. *)
Definition fresh_entry (path : string) (m : list (string * ImportInfo))
    (e : string * ImportInfo) : Prop :=
  sourcepath e.2 = path ∧ namespace e.2 = e.1 ∧ JsMap.get e.1 m = None
  ∧ blacklisted e.1 = false.

(** What holds between two ['line'] events of a scan of [path] that started
    from the map [m]. *)
Definition scan_inv (path : string) (m : list (string * ImportInfo))
    (s : list (string * ImportInfo) * Scan.locals) : Prop :=
  ∃ new, s.1 = m ++ new
       ∧ new.*1 = Scan.found s.2
       ∧ NoDup (Scan.found s.2)
       ∧ Forall (fresh_entry path m) new
       ∧ (truthy (Scan.namespace s.2) = true →
          blacklisted (Scan.namespace s.2) = false).

(** The reverse mapping agrees with the forward map. *)
Definition files_agree (db : ImportDB) : Prop :=
  ∀ p n, n ∈ listed p db ↔
         ∃ i, JsMap.get n (imports db) = Some i ∧ sourcepath i = p.

(** No key of the forward map is blacklisted. *)
Definition no_blacklisted_key (db : ImportDB) : Prop :=
  ∀ n, is_Some (JsMap.get n (imports db)) → blacklisted n = false.

(** The cache, when set, holds what [getCompletions] would build now, in an
    array allocated earlier. *)
Definition cache_coherent (prebaked : list ImportInfo) (db : ImportDB)
    : Prop :=
  ∀ a, completions db = Some a →
       array_items a
         = completion_item <$> completion_sources prebaked (imports db)
       ∧ (array_id a < allocated db)%nat.

(** ** Sample declaration files *)

(** One module declaration the way the declaration generator prints it. *)
Definition module_block (ns marker : string) : list string :=
  [ "declare module 'goog:" +:+ ns +:+ "' {";
    "  import alias = clutz." +:+ ns +:+ ";";
    "  " +:+ marker +:+ ";";
    "}" ].

Definition default_block (ns : string) : list string :=
  module_block ns "export default alias".

Definition namespace_block (ns : string) : list string :=
  module_block ns "export = alias".

Definition tabpane_file : list string :=
  default_block "goog.ui.TabPane"
  ++ default_block "goog.ui.TabPane.Events"
  ++ default_block "goog.ui.Button".

Definition symbols_file : list string :=
  default_block "goog.i18n.DateTimeSymbols.foo".

Definition dom_file : list string := namespace_block "goog.dom".

Definition dom_events_file : list string :=
  namespace_block "goog.dom" ++ default_block "goog.events.EventTarget".

Definition component_file : list string :=
  default_block "goog.ui.Component".

Definition sample_prebaked : list ImportInfo :=
  [ {| name := "Component"; namespace := "goog.ui.Component";
       module := false; sourcepath := "" |};
    {| name := "dom"; namespace := "goog.dom";
       module := true; sourcepath := "" |} ].

(** Two files scanned into a new index. *)
Definition two_files_db : ImportDB :=
  scan_whole "ui.d.ts" tabpane_file
    (scan_whole "dom.d.ts" dom_file new_ImportDB).

(** Every row of the reverse mapping is a non-empty list without repeats. *)
Definition rows_ok (db : ImportDB) : Prop :=
  ∀ p ns, files db !! p = Some ns → ns ≠ [] ∧ NoDup ns.

(** The [name] the handler derives from an accepted namespace. *)
Definition last_segment (ns : string) : string :=
  if lastIndexOf ns "." =? -1 then ns else substr ns (lastIndexOf ns "." + 1).

(** Does the code unit [c] occur in [s]? *)
Fixpoint occurs (c : ascii) (s : string) : bool :=
  match s with
  | EmptyString => false
  | String c' s' => Ascii.eqb c c' || occurs c s'
  end.

(** An entry as the handler builds it. *)
Definition entry_ok (e : string * ImportInfo) : Prop :=
  namespace e.2 = e.1 ∧ name e.2 = last_segment e.1 ∧ e.1 ≠ ""
  ∧ e.1 ∉ deprecated.

(** The active namespace, when there is one, has its [name] beside it. *)
Definition active_ok (st : Scan.locals) : Prop :=
  truthy (Scan.namespace st) = true →
  Scan.name st = last_segment (Scan.namespace st)
  ∧ Scan.namespace st ∉ deprecated.

(** Does every code unit of [s] satisfy [P]? *)
Fixpoint all_chars (P : ascii → bool) (s : string) : bool :=
  match s with
  | EmptyString => true
  | String c s' => P c && all_chars P s'
  end.

(** No line terminator in [s]: [.] matches each of its code units. *)
Definition dots_only (s : string) : bool :=
  all_chars (λ c, negb (is_line_terminator c)) s.

(** No quote in [s]. *)
Definition quote_free (s : string) : bool :=
  all_chars (λ c, negb (Ascii.eqb c "'")) s.

(** The marker line of a block: [export = alias] for a namespace-style
    module, [export default alias] otherwise. *)
Definition marker (b : bool) : string :=
  if b then "export = alias" else "export default alias".

(** The second line of a block. *)
Definition import_line (ns : string) : string :=
  "  import alias = clutz." +:+ ns +:+ ";".

(** A namespace that the handler accepts from a block as it is printed: not
    empty, without line terminator or quote, neither blacklisted nor
    deprecated, and such that its import line reads as no export marker. *)
Definition printable (ns : string) : bool :=
  truthy ns && dots_only ns && quote_free ns
  && negb (blacklisted ns) && negb (bool_decide (ns ∈ deprecated))
  && (indexOf (import_line ns) "export = alias" =? -1)
  && (indexOf (import_line ns) "export default alias" =? -1).

(** The file that declares the modules of [l], one block each. *)
Definition print_blocks (l : list (string * bool)) : list string :=
  concat ((λ d, module_block d.1 (marker d.2)) <$> l).

(** The entry a scan of [path] builds for the declaration [d]. *)
Definition block_entry (path : string) (d : string * bool)
    : string * ImportInfo :=
  (d.1, {| name := last_segment d.1; namespace := d.1; module := d.2;
           sourcepath := path |}).

(** ** The filters of [scanWorkspace] *)

(** [s.endsWith(suf)] *)
Definition endsWith (s suf : string) : bool :=
  (String.length suf <=? String.length s)%nat
  && String.eqb (string_drop (String.length s - String.length suf) s) suf.

(** [filter.file]: [stats.name.endsWith('.d.ts')] *)
Definition filter_file (name : string) : bool := endsWith name ".d.ts".

(** [.+] followed by [suffix] and the end of the input, from the head of
    [s]: the first code unit is taken by [.], and then either the rest is
    [suffix] or [.+] takes more. *)
Fixpoint dot_plus_then (suffix s : string) : bool :=
  match s with
  | EmptyString => false
  | String c s' =>
      negb (is_line_terminator c)
      && (String.eqb s' suffix || dot_plus_then suffix s')
  end.

(** [/^(.git|node_modules|.+\.runfiles)$/.test(name)]; the dot of [.git]
    is not escaped. *)
Definition excluded_directory (name : string) : bool :=
  match name with
  | EmptyString => false
  | String c rest => negb (is_line_terminator c) && String.eqb rest "git"
  end
  || String.eqb name "node_modules"
  || dot_plus_then ".runfiles" name.

(** [filter.directory] *)
Definition filter_directory (name : string) : bool :=
  negb (excluded_directory name).

(** ** What the event loop keeps *)

(** The entry under [n] has [sourcepath] [p]. *)
Definition owns (db : ImportDB) (n p : string) : Prop :=
  ∃ i, JsMap.get n (imports db) = Some i ∧ sourcepath i = p.

(** What every interleaving keeps: a listed namespace is owned by its path;
    what a reader at work has found is owned by its path and listed nowhere;
    and no two readers at work have found the same namespace. *)
Definition server_inv (sv : server) : Prop :=
  (∀ p n, n ∈ listed p (server_db sv) → owns (server_db sv) n p)
  ∧ (∀ id r n, readers sv !! id = Some r →
       n ∈ Scan.found (reader_locals r) →
       owns (server_db sv) n (reader_path r)
       ∧ ∀ q, n ∉ listed q (server_db sv))
  ∧ (∀ id id' r r' n, readers sv !! id = Some r → readers sv !! id' = Some r' →
       n ∈ Scan.found (reader_locals r) → n ∈ Scan.found (reader_locals r') →
       id = id').

(** The entries and the active namespaces are as the handler makes them. *)
Definition server_entries_ok (sv : server) : Prop :=
  Forall entry_ok (imports (server_db sv))
  ∧ no_blacklisted_key (server_db sv)
  ∧ ∀ id r, readers sv !! id = Some r →
      active_ok (reader_locals r)
      ∧ (truthy (Scan.namespace (reader_locals r)) = true →
         blacklisted (Scan.namespace (reader_locals r)) = false).

(** While no reader at work has found anything, the cache is current. *)
Definition cache_idle (prebaked : list ImportInfo) (sv : server) : Prop :=
  (∀ id r, readers sv !! id = Some r → Scan.found (reader_locals r) = []) →
  cache_coherent prebaked (server_db sv).

(** A reader at work was started earlier. *)
Definition ids_fresh (sv : server) : Prop :=
  ∀ id r, readers sv !! id = Some r → (id < started sv)%nat.

(** Two scans of one path at work at once: the first reader emits the block
    of [goog.dom], the second emits the whole file and closes, then the
    first emits the rest and closes. *)
Definition overlapping_scans : list event :=
  [ Call (ScanFile "both.d.ts" dom_events_file);
    Call (ScanFile "both.d.ts" dom_events_file) ]
  ++ replicate 4 (Emit 0%nat) ++ replicate 9 (Emit 1%nat)
  ++ replicate 5 (Emit 0%nat).

(** ** [onDidChangeWatchedFiles]

    [realpathSync] and the content the reader of a path will emit belong to
    the file system; they are parameters.  [realpathSync] throws on a path
    it cannot resolve ([None]); the exception ends the handler, and what it
    did before stays done. *)

Record FileEvent : Type := { uri : string; type : Z }.

(** The loop over [_change.changes]; the result tells whether the loop ran
    to its end. *)
Fixpoint handle_changes (realpathSync : string → option string)
    (content : string → list string) (changes : list FileEvent)
    (processed : gset string) (sv : server) : server * bool :=
  match changes with
  | [] => (sv, true)
  | change :: rest =>
      if startsWith (uri change) "file://" then
        match realpathSync (substr (uri change) 7) with
        | None => (sv, false)
        | Some path =>
            if bool_decide (path ∈ processed)
            then handle_changes realpathSync content rest processed sv
            else
              handle_changes realpathSync content rest
                ({[path]} ∪ processed)
                (if type change =? 3 then removeFile_call path sv
                 else scanFile path (content path) sv)
        end
      else handle_changes realpathSync content rest processed sv
  end.

Definition onDidChangeWatchedFiles (realpathSync : string → option string)
    (content : string → list string) (changes : list FileEvent)
    (sv : server) : server * bool :=
  handle_changes realpathSync content changes ∅ sv.

(** The file a change names, when its URI is a file URI that resolves. *)
Definition resolves (realpathSync : string → option string)
    (change : FileEvent) (p : string) : Prop :=
  startsWith (uri change) "file://" = true
  ∧ realpathSync (substr (uri change) 7) = Some p.

(** [realpathSync] throws on the path of a change with a file URI. *)
Definition throws (realpathSync : string → option string)
    (change : FileEvent) : Prop :=
  startsWith (uri change) "file://" = true
  ∧ realpathSync (substr (uri change) 7) = None.

(** The path a call is about. *)
Definition call_path (c : call) : string :=
  match c with
  | ScanFile p _ => p
  | RemoveFile p => p
  | GetCompletions => ""
  end.

(** A file system for the examples: every path resolves to itself. *)
Definition sample_changes : list FileEvent :=
  [ {| uri := "file:///w/dom.d.ts"; type := 3 |};
    {| uri := "untitled:scratch"; type := 1 |};
    {| uri := "file:///w/dom.d.ts"; type := 1 |};
    {| uri := "file:///w/ui.d.ts"; type := 2 |} ].

Definition sample_content (p : string) : list string :=
  if String.eqb p "/w/ui.d.ts" then tabpane_file else dom_file.

Definition two_files_server : server :=
  {| server_db :=
       scan_whole "/w/ui.d.ts" tabpane_file
         (scan_whole "/w/dom.d.ts" dom_file new_ImportDB);
     readers := ∅; started := O |}.

(** ** Calls that wait for the reader of their path *)

(** No reader at work scans [p]. *)
Definition idle_on (p : string) (sv : server) : Prop :=
  map_Forall (λ _ r, reader_path r ≠ p) (readers sv).

(** A call about a path is made only while no reader scans that path. *)
Definition allowed (sv : server) (e : event) : bool :=
  match e with
  | Call (ScanFile p _) => bool_decide (idle_on p sv)
  | Call (RemoveFile p) => bool_decide (idle_on p sv)
  | _ => true
  end.

(** Every event of [es], run from [sv], is allowed when its turn comes. *)
Fixpoint paced (prebaked : list ImportInfo) (es : list event) (sv : server)
    : bool :=
  match es with
  | [] => true
  | e :: es' => allowed sv e && paced prebaked es' (step prebaked sv e)
  end.

(** What paced runs keep besides: an entry is listed for its path or found
    by a reader of its path; a path has one reader at most; and a path with
    a reader has no row. *)
Definition paced_inv (sv : server) : Prop :=
  (∀ n i, JsMap.get n (imports (server_db sv)) = Some i →
     n ∈ listed (sourcepath i) (server_db sv)
     ∨ ∃ id r, readers sv !! id = Some r ∧ reader_path r = sourcepath i
               ∧ n ∈ Scan.found (reader_locals r))
  ∧ (∀ id id' r r', readers sv !! id = Some r → readers sv !! id' = Some r' →
       reader_path r = reader_path r' → id = id')
  ∧ (∀ id r, readers sv !! id = Some r →
       files (server_db sv) !! reader_path r = None).

(** Two files scanned at once, their readers taking turns line by line. *)
Definition alternating_scans : list event :=
  [ Call (ScanFile "dom.d.ts" dom_file);
    Call (ScanFile "both.d.ts" dom_events_file) ]
  ++ concat (replicate 5 [Emit 1%nat; Emit 0%nat])
  ++ replicate 4 (Emit 1%nat).

(** A text the declaration pattern captures whole from a printed block:
    not empty, without line terminator or quote. *)
Definition plain_text (ns : string) : bool :=
  truthy ns && dots_only ns && quote_free ns.

(** ** What the event loop keeps besides *)

(** A cached array was allocated earlier. *)
Definition cache_older (db : ImportDB) : Prop :=
  ∀ a, completions db = Some a → (array_id a < allocated db)%nat.

(** No row is empty, and neither a row nor what a reader at work has found
    repeats a namespace. *)
Definition rows_inv (sv : server) : Prop :=
  rows_ok (server_db sv)
  ∧ ∀ id r, readers sv !! id = Some r → NoDup (Scan.found (reader_locals r)).

(** ** Sample runs *)

(** [getCompletions] is called right after [scanFile] returns; then the
    reader emits its lines up to the export marker of [goog.ui.Button]. *)
Definition mid_scan_completions : list event :=
  [ Call (ScanFile "ui.d.ts" tabpane_file); Call GetCompletions ]
  ++ replicate 11 (Emit 0%nat).

(** [dom.d.ts] is scanned, then [both.d.ts], which repeats [goog.dom]; then
    [dom.d.ts] is removed.  Each reader closes before the next call. *)
Definition owner_removed : list event :=
  scan_events "dom.d.ts" dom_file 0
  ++ scan_events "both.d.ts" dom_events_file 1
  ++ [Call (RemoveFile "dom.d.ts")].

(** * Properties *)

(** ** The [Map] operations *)

Section JsMapFacts.
Context {V : Type}.
Implicit Types (m : list (string * V)) (k : string) (v : V).

Lemma get_app k m1 m2 :
  JsMap.get k (m1 ++ m2) =
  match JsMap.get k m1 with Some v => Some v | None => JsMap.get k m2 end.
Proof.
  induction m1 as [|[k' v'] m1 IH]; simpl; [done|].
  by destruct (String.eqb k k').
Qed.

Lemma get_None_keys k m : JsMap.get k m = None ↔ k ∉ m.*1.
Proof.
  induction m as [|[k' v'] m IH]; simpl.
  - split; [intros _; apply not_elem_of_nil | done].
  - rewrite not_elem_of_cons. destruct (String.eqb_spec k k') as [->|Hne].
    + split; [done | intros [? _]; done].
    + rewrite IH. tauto.
Qed.

Lemma has_false k m : JsMap.has k m = false ↔ JsMap.get k m = None.
Proof. unfold JsMap.has. destruct (JsMap.get k m); split; done. Qed.

Lemma has_true k m : JsMap.has k m = true ↔ is_Some (JsMap.get k m).
Proof.
  unfold JsMap.has. destruct (JsMap.get k m); split; done.
Qed.

Lemma get_set k' k v m :
  JsMap.get k' (JsMap.set k v m) =
  if decide (k' = k) then Some v else JsMap.get k' m.
Proof.
  induction m as [|[k0 v0] m IH]; simpl.
  - destruct (String.eqb_spec k' k); case_decide; congruence.
  - destruct (String.eqb_spec k k0) as [->|Hk]; simpl.
    + destruct (String.eqb_spec k' k0); case_decide; congruence.
    + rewrite IH. destruct (String.eqb_spec k' k0); case_decide; congruence.
Qed.

Lemma set_fresh k v m :
  JsMap.get k m = None → JsMap.set k v m = m ++ [(k, v)].
Proof.
  induction m as [|[k0 v0] m IH]; simpl; [done|].
  destruct (String.eqb k k0); [done|]. intros H. by rewrite IH.
Qed.

Lemma get_delete k' k m :
  JsMap.get k' (JsMap.delete k m) =
  if decide (k' = k) then None else JsMap.get k' m.
Proof.
  induction m as [|[k0 v0] m IH]; simpl.
  - by case_decide.
  - destruct (String.eqb_spec k k0) as [->|Hk]; simpl.
    + rewrite IH. destruct (String.eqb_spec k' k0); case_decide; congruence.
    + rewrite IH. destruct (String.eqb_spec k' k0); case_decide; congruence.
Qed.

Lemma get_delete_all k ns m :
  JsMap.get k (foldl (λ m n, JsMap.delete n m) m ns) =
  if decide (k ∈ ns) then None else JsMap.get k m.
Proof.
  revert m. induction ns as [|n ns IH]; intros m.
  - destruct (decide (k ∈ [])) as [H|H]; [by apply elem_of_nil in H | done].
  - change (foldl _ m (n :: ns))
      with (foldl (λ m n, JsMap.delete n m) (JsMap.delete n m) ns).
    rewrite IH, get_delete.
    destruct (decide (k ∈ ns)) as [Hin|Hin], (decide (k = n)) as [Heq|Heq],
      (decide (k ∈ n :: ns)) as [Hc|Hc]; try done;
      rewrite elem_of_cons in Hc; tauto.
Qed.

Lemma delete_fresh k m : JsMap.get k m = None → JsMap.delete k m = m.
Proof.
  induction m as [|[k0 v0] m IH]; simpl; [done|].
  destruct (String.eqb k k0); [done|]. intros H. by rewrite IH.
Qed.

Lemma delete_app k m1 m2 :
  JsMap.delete k (m1 ++ m2) = JsMap.delete k m1 ++ JsMap.delete k m2.
Proof.
  induction m1 as [|[k0 v0] m1 IH]; simpl; [done|].
  destruct (String.eqb k k0); by rewrite IH.
Qed.

End JsMapFacts.

Lemma get_Some_elem_of {V : Type} (k : string) (v : V) (m : list (string * V)) :
  JsMap.get k m = Some v → (k, v) ∈ m.
Proof.
  induction m as [|[k0 v0] m IH]; simpl; [done|].
  destruct (String.eqb_spec k k0) as [->|Hne].
  - intros [= ->]. apply elem_of_cons. by left.
  - intros H. apply elem_of_cons. right. by apply IH.
Qed.

Lemma foldl_preserves {A B : Type} (P : A → Prop) (f : A → B → A)
    (l : list B) (a : A) :
  P a → (∀ a b, P a → P (f a b)) → P (foldl f a l).
Proof.
  intros Ha Hstep. revert a Ha.
  induction l as [|b l IH]; intros a Ha; simpl; [done|].
  apply IH. by apply Hstep.
Qed.

(** ** [removeFile] *)

Lemma removeFile_absent (p : string) (db : ImportDB) :
  files db !! p = None → removeFile p db = db.
Proof. intros H. unfold removeFile. by rewrite H. Qed.

Lemma removeFile_files (p : string) (db : ImportDB) :
  files (removeFile p db) = delete p (files db).
Proof.
  unfold removeFile. destruct (files db !! p) eqn:H; simpl; [done|].
  by rewrite delete_id.
Qed.

Lemma removeFile_listed_same (p : string) (db : ImportDB) :
  listed p (removeFile p db) = [].
Proof. unfold listed. by rewrite removeFile_files, lookup_delete_eq. Qed.

Lemma removeFile_listed_other (p q : string) (db : ImportDB) :
  q ≠ p → listed q (removeFile p db) = listed q db.
Proof.
  intros H. unfold listed. by rewrite removeFile_files, lookup_delete_ne.
Qed.

Lemma removeFile_get (p n : string) (db : ImportDB) :
  JsMap.get n (imports (removeFile p db)) =
  if decide (n ∈ listed p db) then None else JsMap.get n (imports db).
Proof.
  unfold removeFile, listed. destruct (files db !! p) as [ns|] eqn:H; simpl.
  - apply get_delete_all.
  - destruct (decide (n ∈ [])) as [Hin|Hin]; [by apply elem_of_nil in Hin|done].
Qed.

Lemma removeFile_allocated (p : string) (db : ImportDB) :
  allocated (removeFile p db) = allocated db.
Proof. unfold removeFile. by destruct (files db !! p). Qed.

Lemma removeFile_completions (p : string) (db : ImportDB) :
  completions (removeFile p db) =
  match files db !! p with Some _ => None | None => completions db end.
Proof. unfold removeFile. by destruct (files db !! p). Qed.

(** ** The ['line'] handler *)

Lemma on_declare_found (ns : string) (st : Scan.locals) :
  Scan.found (on_declare ns st) = Scan.found st.
Proof.
  unfold on_declare.
  repeat (match goal with |- context [if ?b then _ else _] => destruct b end;
          simpl); done.
Qed.

Lemma on_declare_namespace (ns : string) (st : Scan.locals) :
  Scan.namespace (on_declare ns st) = ""
  ∨ (Scan.namespace (on_declare ns st) = ns ∧ blacklisted ns = false).
Proof.
  unfold on_declare. simpl.
  destruct (truthy (Scan.skip st) && startsWith ns (Scan.skip st));
    [by left|].
  destruct (truthy (Scan.skip st)); simpl;
    (destruct (blacklisted ns) eqn:Hb; [by left|]);
    (destruct (bool_decide (ns ∈ deprecated)); [by left|]);
    by right.
Qed.

Lemma scan_inv_init (path : string) (m : list (string * ImportInfo)) :
  scan_inv path m (m, Scan.init).
Proof.
  exists []. simpl. rewrite app_nil_r.
  repeat split; first [done | apply NoDup_nil_2 | by apply Forall_nil_2].
Qed.

Lemma scan_inv_on_export (path : string) (b : bool)
    (m : list (string * ImportInfo))
    (s : list (string * ImportInfo) * Scan.locals) :
  truthy (Scan.namespace s.2) = true →
  scan_inv path m s → scan_inv path m (on_export path b s).
Proof.
  destruct s as [m' st]. unfold scan_inv, on_export. simpl.
  intros Hns (new & -> & Hkeys & Hnd & Hall & Hbl). destruct (JsMap.has (Scan.namespace st) (m ++ new)) eqn:Hhas.
  - by exists new.
  - apply has_false in Hhas. rewrite set_fresh by done.
    pose proof Hhas as Hget. rewrite get_app in Hget.
    destruct (JsMap.get (Scan.namespace st) m) eqn:Hm; [done|].
    apply get_None_keys in Hget.
    eexists (new ++ [(Scan.namespace st, _)]). simpl.
    split; [by rewrite app_assoc|].
    split; [by rewrite fmap_app, Hkeys|].
    split.
    { apply NoDup_app. split; [done|]. split; [|apply NoDup_singleton].
      intros x Hx ->%list_elem_of_singleton. by rewrite <-Hkeys in Hx. }
    split; [|done].
    apply Forall_app. split; [done|]. apply Forall_singleton.
    repeat split; simpl; auto.
Qed.

Lemma scan_inv_on_line (path l : string) (m : list (string * ImportInfo))
    (s : list (string * ImportInfo) * Scan.locals) :
  scan_inv path m s → scan_inv path m (on_line path s l).
Proof.
  intros Hinv. unfold on_line. destruct (match_declare l) as [ns|].
  - destruct Hinv as (new & Hm & Hkeys & Hnd & Hall & _).
    exists new. simpl. rewrite on_declare_found.
    repeat split; try done.
    destruct (on_declare_namespace ns s.2) as [->|[-> Hb]]; [done|].
    by intros _.
  - destruct (truthy (Scan.namespace s.2)) eqn:Hns; simpl; [|done].
    destruct (negb (indexOf l "export = alias" =? -1));
      [by apply scan_inv_on_export|].
    destruct (negb (indexOf l "export default alias" =? -1));
      [by apply scan_inv_on_export|done].
Qed.

Lemma scan_inv_lines (path : string) (lines : list string)
    (m : list (string * ImportInfo)) :
  scan_inv path m (scan_lines path lines m).
Proof.
  unfold scan_lines. apply foldl_preserves.
  - apply scan_inv_init.
  - intros s l. apply scan_inv_on_line.
Qed.

Lemma scan_lines_found_get (path : string) (lines : list string)
    (m : list (string * ImportInfo)) (n : string) :
  n ∈ Scan.found (scan_lines path lines m).2 →
  ∃ i, JsMap.get n (scan_lines path lines m).1 = Some i
     ∧ sourcepath i = path ∧ namespace i = n
     ∧ JsMap.get n m = None ∧ blacklisted n = false.
Proof.
  destruct (scan_inv_lines path lines m) as (new & -> & Hkeys & _ & Hall & _).
  rewrite <-Hkeys. intros Hin.
  destruct (JsMap.get n new) as [i|] eqn:Hget;
    [|by apply get_None_keys in Hget].
  pose proof (get_Some_elem_of _ _ _ Hget) as Hel.
  rewrite Forall_forall in Hall. destruct (Hall _ Hel) as (Hp & Hn & Hm & Hb).
  simpl in *. exists i. by rewrite get_app, Hm.
Qed.

Lemma scan_lines_other_get (path : string) (lines : list string)
    (m : list (string * ImportInfo)) (n : string) :
  n ∉ Scan.found (scan_lines path lines m).2 →
  JsMap.get n (scan_lines path lines m).1 = JsMap.get n m.
Proof.
  destruct (scan_inv_lines path lines m) as (new & -> & Hkeys & _ & _ & _).
  rewrite <-Hkeys. intros Hin%get_None_keys.
  rewrite get_app, Hin. by destruct (JsMap.get n m).
Qed.

Lemma scan_lines_nothing_found (path : string) (lines : list string)
    (m : list (string * ImportInfo)) :
  Scan.found (scan_lines path lines m).2 = [] →
  (scan_lines path lines m).1 = m.
Proof.
  destruct (scan_inv_lines path lines m) as (new & -> & Hkeys & _ & _ & _).
  rewrite <-Hkeys. intros Hnil. apply fmap_nil_inv in Hnil as ->.
  apply app_nil_r.
Qed.

(** ** An uninterrupted scan on the index *)

Lemma on_close_imports (p : string) (db : ImportDB)
    (s : list (string * ImportInfo) * Scan.locals) :
  imports (on_close p db s) = s.1.
Proof. unfold on_close. by destruct (0 <? _). Qed.

Lemma on_close_allocated (p : string) (db : ImportDB)
    (s : list (string * ImportInfo) * Scan.locals) :
  allocated (on_close p db s) = allocated db.
Proof. unfold on_close. by destruct (0 <? _). Qed.

Lemma on_close_listed (p q : string) (db : ImportDB)
    (s : list (string * ImportInfo) * Scan.locals) :
  listed q (on_close p db s) =
  if decide (q = p)
  then match Scan.found s.2 with [] => listed p db | _ => Scan.found s.2 end
  else listed q db.
Proof.
  unfold on_close, listed. destruct (Scan.found s.2) as [|n ns]; simpl.
  - by case_decide; subst.
  - case_decide as H.
    + subst. by rewrite lookup_insert_eq.
    + by rewrite lookup_insert_ne.
Qed.

Lemma scan_whole_imports (p : string) (lines : list string) (db : ImportDB) :
  imports (scan_whole p lines db)
  = (scan_lines p lines (imports (removeFile p db))).1.
Proof. apply on_close_imports. Qed.

Lemma scan_whole_listed_same (p : string) (lines : list string)
    (db : ImportDB) :
  listed p (scan_whole p lines db)
  = Scan.found (scan_lines p lines (imports (removeFile p db))).2.
Proof.
  unfold scan_whole. rewrite on_close_listed, decide_True by done.
  rewrite removeFile_listed_same. by destruct (Scan.found _).
Qed.

Lemma scan_whole_listed_other (p q : string) (lines : list string)
    (db : ImportDB) :
  q ≠ p → listed q (scan_whole p lines db) = listed q db.
Proof.
  intros H. unfold scan_whole. rewrite on_close_listed, decide_False by done.
  by apply removeFile_listed_other.
Qed.

(** ** The reverse mapping agrees with the forward map *)

Lemma files_agree_new : files_agree new_ImportDB.
Proof.
  intros p n. unfold listed. simpl. rewrite lookup_empty. simpl. split.
  - intros H. by apply elem_of_nil in H.
  - by intros (i & H & _).
Qed.

Lemma files_agree_removeFile (p : string) (db : ImportDB) :
  files_agree db → files_agree (removeFile p db).
Proof.
  intros H q n. destruct (decide (q = p)) as [->|Hne].
  - rewrite removeFile_listed_same. split.
    + intros Hin. by apply elem_of_nil in Hin.
    + intros (i & Hget & Hsp). rewrite removeFile_get in Hget.
      destruct (decide (n ∈ listed p db)) as [|Hno]; [done|].
      destruct Hno. apply H. eauto.
  - rewrite removeFile_listed_other by done. rewrite (H q n).
    split; intros (i & Hget & Hsp); exists i; split; try done.
    + rewrite removeFile_get.
      destruct (decide (n ∈ listed p db)) as [Hin|]; [|done].
      apply H in Hin as (i' & Hget' & Hsp'). congruence.
    + rewrite removeFile_get in Hget. by destruct (decide (n ∈ listed p db)).
Qed.

Lemma files_agree_scan_whole (p : string) (lines : list string)
    (db : ImportDB) :
  files_agree db → files_agree (scan_whole p lines db).
Proof.
  intros H%(files_agree_removeFile p) q n. rewrite scan_whole_imports.
  set (m := imports (removeFile p db)) in *.
  destruct (decide (n ∈ Scan.found (scan_lines p lines m).2)) as [Hin|Hout].
  - destruct (scan_lines_found_get _ _ _ _ Hin) as (i & Hget & Hsp & _ & Hm & _).
    destruct (decide (q = p)) as [->|Hne].
    + rewrite scan_whole_listed_same. fold m. split; [eauto|done].
    + rewrite scan_whole_listed_other, <-(removeFile_listed_other p) by done.
      rewrite (H q n). fold m. rewrite Hm, Hget. split.
      * by intros (? & ? & _).
      * intros (? & [= <-] & ?). congruence.
  - rewrite (scan_lines_other_get _ _ _ _ Hout).
    destruct (decide (q = p)) as [->|Hne].
    + rewrite scan_whole_listed_same. fold m. split; [done|].
      intros Hex. apply H in Hex. rewrite removeFile_listed_same in Hex.
      by apply elem_of_nil in Hex.
    + rewrite scan_whole_listed_other, <-(removeFile_listed_other p) by done.
      apply H.
Qed.

Lemma files_agree_run_whole (prebaked : list ImportInfo) (cs : list call)
    (db : ImportDB) :
  files_agree db → files_agree (run_whole prebaked cs db).
Proof.
  intros H. unfold run_whole. apply foldl_preserves; [done|].
  intros db' [p lines|p|] Hdb'; simpl.
  - by apply files_agree_scan_whole.
  - by apply files_agree_removeFile.
  - unfold getCompletions. by destruct (completions db').
Qed.

(** C3 as the code has it.  [removeFile p] unsets the completion cache when
    [p] has a row in the reverse mapping; when it has none the call leaves the
    whole index, the cache included, as it was. *)
Theorem removeFile_cache (p : string) (db : ImportDB) :
  (is_Some (files db !! p) → completions (removeFile p db) = None)
  ∧ (files db !! p = None → removeFile p db = db).
Proof.
  split.
  - intros [ns Hns]. by rewrite removeFile_completions, Hns.
  - apply removeFile_absent.
Qed.

(** C3 as stated fails: on an index whose cache was filled by
    [getCompletions] and that has no row for the path, [removeFile] keeps the
    cache. *)
Lemma removeFile_keeps_cache_without_row :
  ¬ (∀ (p : string) (db : ImportDB), completions (removeFile p db) = None).
Proof.
  intros H.
  specialize (H "a.d.ts" (getCompletions sample_prebaked new_ImportDB).2).
  discriminate H.
Qed.

(** C9.  A second [removeFile p] right after the first changes nothing. *)
Theorem removeFile_idempotent (p : string) (db : ImportDB) :
  removeFile p (removeFile p db) = removeFile p db.
Proof.
  apply removeFile_absent. by rewrite removeFile_files, lookup_delete_eq.
Qed.

(** C10.  When every namespace listed for [p] has [sourcepath] [p],
    [removeFile p] keeps every entry of the forward map whose [sourcepath]
    is not [p], adds none, and keeps every other path's row; [workspace] is
    untouched. *)
Theorem removeFile_frame (p : string) (db : ImportDB) :
  (∀ n i, n ∈ listed p db → JsMap.get n (imports db) = Some i →
          sourcepath i = p) →
  (∀ n i, JsMap.get n (imports db) = Some i → sourcepath i ≠ p →
          JsMap.get n (imports (removeFile p db)) = Some i)
  ∧ (∀ n i, JsMap.get n (imports (removeFile p db)) = Some i →
            JsMap.get n (imports db) = Some i)
  ∧ (∀ q, q ≠ p → files (removeFile p db) !! q = files db !! q)
  ∧ workspace (removeFile p db) = workspace db.
Proof.
  intros Hown. repeat split.
  - intros n i Hget Hsp. rewrite removeFile_get.
    destruct (decide (n ∈ listed p db)) as [Hin|]; [|done].
    destruct Hsp. by apply (Hown n i).
  - intros n i. rewrite removeFile_get.
    by destruct (decide (n ∈ listed p db)).
  - intros q Hq. by rewrite removeFile_files, lookup_delete_ne.
  - unfold removeFile. by destruct (files db !! p).
Qed.

Lemma removeFile_frame_witness :
  JsMap.get "goog.ui.Button" (imports (removeFile "dom.d.ts" two_files_db))
  = Some {| name := "Button"; namespace := "goog.ui.Button";
            module := false; sourcepath := "ui.d.ts" |}.
Proof.
  assert (Hown : ∀ n i, n ∈ listed "dom.d.ts" two_files_db →
                        JsMap.get n (imports two_files_db) = Some i →
                        sourcepath i = "dom.d.ts").
  { intros n i Hin.
    replace (listed "dom.d.ts" two_files_db) with ["goog.dom"] in Hin
      by (vm_compute; reflexivity).
    apply list_elem_of_singleton in Hin as ->.
    vm_compute. by intros [= <-]. }
  destruct (removeFile_frame "dom.d.ts" two_files_db Hown) as [Hkeep _].
  apply Hkeep; [vm_compute; reflexivity | vm_compute; discriminate].
Defined.

(** ** No blacklisted key, and the cache *)

Lemma no_blacklisted_key_removeFile (p : string) (db : ImportDB) :
  no_blacklisted_key db → no_blacklisted_key (removeFile p db).
Proof.
  intros H n [i Hget]. apply H. rewrite removeFile_get in Hget.
  destruct (decide (n ∈ listed p db)); [done|]. by exists i.
Qed.

Lemma no_blacklisted_key_scan_whole (p : string) (lines : list string)
    (db : ImportDB) :
  no_blacklisted_key db → no_blacklisted_key (scan_whole p lines db).
Proof.
  intros H%(no_blacklisted_key_removeFile p) n. rewrite scan_whole_imports.
  set (m := imports (removeFile p db)) in *.
  destruct (decide (n ∈ Scan.found (scan_lines p lines m).2)) as [Hin|Hout].
  - intros _. by destruct (scan_lines_found_get _ _ _ _ Hin) as (? & _ & _ & _ & _ & ?).
  - rewrite (scan_lines_other_get _ _ _ _ Hout). apply H.
Qed.

Lemma no_blacklisted_key_run_whole (prebaked : list ImportInfo)
    (cs : list call) :
  no_blacklisted_key (run_whole prebaked cs new_ImportDB).
Proof.
  unfold run_whole. apply foldl_preserves.
  - by intros n [i Hi].
  - intros db [p lines|p|] Hdb; simpl.
    + by apply no_blacklisted_key_scan_whole.
    + by apply no_blacklisted_key_removeFile.
    + unfold getCompletions. by destruct (completions db).
Qed.

Lemma cache_coherent_removeFile (prebaked : list ImportInfo) (p : string)
    (db : ImportDB) :
  cache_coherent prebaked db → cache_coherent prebaked (removeFile p db).
Proof.
  intros H. unfold removeFile. destruct (files db !! p); [|done].
  by intros a.
Qed.

Lemma cache_coherent_scan_whole (prebaked : list ImportInfo) (p : string)
    (lines : list string) (db : ImportDB) :
  cache_coherent prebaked db → cache_coherent prebaked (scan_whole p lines db).
Proof.
  intros H%(cache_coherent_removeFile _ p). unfold scan_whole, on_close.
  pose proof (scan_lines_nothing_found p lines (imports (removeFile p db)))
    as Hsame.
  destruct (Scan.found _) as [|n ns]; simpl.
  - intros a Ha. simpl in *. rewrite Hsame by done. by apply H.
  - by intros a.
Qed.

Lemma cache_coherent_getCompletions (prebaked : list ImportInfo)
    (db : ImportDB) :
  cache_coherent prebaked db →
  cache_coherent prebaked (getCompletions prebaked db).2.
Proof.
  intros H. unfold getCompletions. destruct (completions db) eqn:Hc; [done|].
  intros a [= <-]. simpl. split; [done|lia].
Qed.

Lemma cache_coherent_run_whole (prebaked : list ImportInfo) (cs : list call) :
  cache_coherent prebaked (run_whole prebaked cs new_ImportDB).
Proof.
  unfold run_whole. apply foldl_preserves.
  - by intros a.
  - intros db [p lines|p|] Hdb; simpl.
    + by apply cache_coherent_scan_whole.
    + by apply cache_coherent_removeFile.
    + by apply cache_coherent_getCompletions.
Qed.

Lemma getCompletions_items (prebaked : list ImportInfo) (db : ImportDB) :
  cache_coherent prebaked db →
  array_items (getCompletions prebaked db).1
  = completion_item <$> completion_sources prebaked (imports db).
Proof.
  intros H. unfold getCompletions. destruct (completions db) eqn:Hc; [|done].
  by apply H.
Qed.

(** ** What a scan finds does not depend on the index but through [has] *)

Lemma on_declare_set_found (ns : string) (f : list string)
    (st : Scan.locals) :
  on_declare ns (Scan.set_found f st) = Scan.set_found f (on_declare ns st).
Proof.
  unfold on_declare. simpl.
  destruct (truthy (Scan.skip st) && startsWith ns (Scan.skip st)); [done|].
  destruct (truthy (Scan.skip st)); simpl;
    (destruct (blacklisted ns); [done|]);
    (destruct (bool_decide (ns ∈ deprecated)); [done|]);
    done.
Qed.

Lemma scan_lines_snoc (path l : string) (lines : list string)
    (m : list (string * ImportInfo)) :
  scan_lines path (lines ++ [l]) m = on_line path (scan_lines path lines m) l.
Proof. unfold scan_lines. apply foldl_snoc. Qed.

Lemma scan_lines_has (path : string) (lines : list string)
    (m : list (string * ImportInfo)) (n : string) :
  JsMap.has n (scan_lines path lines m).1
  = JsMap.has n m || bool_decide (n ∈ Scan.found (scan_lines path lines m).2).
Proof.
  destruct (decide (n ∈ Scan.found (scan_lines path lines m).2)) as [Hin|Hout].
  - rewrite (bool_decide_eq_true_2 _ Hin), orb_true_r.
    destruct (scan_lines_found_get _ _ _ _ Hin) as (i & Hget & _).
    apply has_true. by exists i.
  - rewrite (bool_decide_eq_false_2 _ Hout), orb_false_r.
    unfold JsMap.has. by rewrite (scan_lines_other_get _ _ _ _ Hout).
Qed.

Lemma scan_lines_locals (path : string) (lines : list string)
    (m : list (string * ImportInfo)) :
  (scan_lines path lines m).2
  = Scan.set_found (filter (λ n, JsMap.has n m = false) (declares lines))
      (scan_lines "" lines []).2.
Proof.
  unfold declares. induction lines as [|l lines IH] using rev_ind.
  - done.
  - pose proof (scan_lines_has path lines m) as Hhas.
    pose proof (scan_lines_has "" lines []) as Hhas0.
    rewrite !scan_lines_snoc.
    destruct (scan_lines path lines m) as [m1 st1].
    destruct (scan_lines "" lines []) as [m0 st0].
    simpl in *. subst st1. unfold on_line. simpl.
    destruct (match_declare l) as [ns|]; simpl.
    { by rewrite on_declare_set_found, on_declare_found. }
    assert (Hexp : ∀ b,
      (on_export path b (m1, Scan.set_found
         (filter (λ n, JsMap.has n m = false) (Scan.found st0)) st0)).2
      = Scan.set_found
          (filter (λ n, JsMap.has n m = false)
             (Scan.found (on_export "" b (m0, st0)).2))
          (on_export "" b (m0, st0)).2).
    { intros b. unfold on_export.
      rewrite Hhas, Hhas0. simpl.
      destruct (decide (Scan.namespace st0 ∈ Scan.found st0)) as [Hin|Hout].
      - rewrite (bool_decide_eq_true_2 _ Hin).
        destruct (JsMap.has (Scan.namespace st0) m) eqn:Hm; simpl; [done|].
        rewrite bool_decide_eq_true_2; [done|].
        by apply list_elem_of_filter.
      - rewrite (bool_decide_eq_false_2 _ Hout).
        destruct (JsMap.has (Scan.namespace st0) m) eqn:Hm; simpl.
        + unfold Scan.set_found, Scan.push_found. simpl.
          rewrite filter_app, filter_cons_False, filter_nil, app_nil_r;
            [done|congruence].
        + rewrite bool_decide_eq_false_2.
          2:{ rewrite list_elem_of_filter. tauto. }
          unfold Scan.set_found, Scan.push_found. simpl.
          by rewrite filter_app, filter_cons_True, filter_nil. }
    destruct (truthy (Scan.namespace st0)); simpl; [|done].
    destruct (negb (indexOf l "export = alias" =? -1)); [apply Hexp|].
    destruct (negb (indexOf l "export default alias" =? -1)); [apply Hexp|done].
Qed.

Lemma scan_lines_found (path : string) (lines : list string)
    (m : list (string * ImportInfo)) (n : string) :
  n ∈ Scan.found (scan_lines path lines m).2
  ↔ n ∈ declares lines ∧ JsMap.get n m = None.
Proof.
  rewrite scan_lines_locals. simpl. rewrite list_elem_of_filter, has_false.
  tauto.
Qed.

(** ** Ownership of a namespace *)


(** ** The checks on a declared namespace *)

Lemma truthy_false (s : string) : truthy s = false → s = "".
Proof. by destruct s. Qed.

(** C4.  A line the declaration pattern matches is handled by the checks on
    its captured namespace alone, in this order: a namespace that continues
    an armed skip-run is dropped and the run stays armed; otherwise the run
    is cleared, and then a blacklisted namespace is dropped, a deprecated one
    is dropped and arms the run with the namespace and a dot, and any other
    becomes the active namespace.  A file declaring [goog.ui.TabPane],
    [goog.ui.TabPane.Events] and [goog.ui.Button], each with an export
    marker, indexes [goog.ui.Button] only. *)
Theorem declaration_checks_in_order (path l ns : string)
    (m : list (string * ImportInfo)) (st : Scan.locals) :
  (match_declare l = Some ns →
   on_line path (m, st) l = (m, on_declare ns st))
  ∧ (truthy (Scan.skip st) = true → startsWith ns (Scan.skip st) = true →
     on_declare ns st
     = {| Scan.namespace := ""; Scan.name := Scan.name st;
          Scan.skip := Scan.skip st; Scan.found := Scan.found st |})
  ∧ (truthy (Scan.skip st) && startsWith ns (Scan.skip st) = false →
     (blacklisted ns = true →
      on_declare ns st
      = {| Scan.namespace := ""; Scan.name := Scan.name st;
           Scan.skip := ""; Scan.found := Scan.found st |})
     ∧ (blacklisted ns = false → ns ∈ deprecated →
        on_declare ns st
        = {| Scan.namespace := ""; Scan.name := Scan.name st;
             Scan.skip := ns +:+ "."; Scan.found := Scan.found st |})
     ∧ (blacklisted ns = false → ns ∉ deprecated →
        on_declare ns st
        = {| Scan.namespace := ns;
             Scan.name := if lastIndexOf ns "." =? -1 then ns
                          else substr ns (lastIndexOf ns "." + 1);
             Scan.skip := ""; Scan.found := Scan.found st |}))
  ∧ (imports (scan_whole path tabpane_file new_ImportDB)).*1
    = ["goog.ui.Button"].
Proof.
  split; [|split; [|split]].
  - intros H. unfold on_line. by rewrite H.
  - intros H1 H2. unfold on_declare. simpl. by rewrite H1, H2.
  - intros Hno. unfold on_declare. simpl. rewrite Hno.
    pose proof (truthy_false (Scan.skip st)) as Hskip.
    destruct (truthy (Scan.skip st)); simpl;
      (repeat split;
       [ intros Hb; rewrite Hb
       | intros Hb Hd; rewrite Hb, (bool_decide_eq_true_2 _ Hd)
       | intros Hb Hd; rewrite Hb, (bool_decide_eq_false_2 _ Hd) ]);
      unfold Scan.set_namespace, Scan.set_skip, Scan.set_name; simpl;
      rewrite ?Hskip by done; done.
  - vm_compute. reflexivity.
Qed.

(** ** Scanning a file again *)

(** When the content declares every namespace listed for [p] and every
    namespace the content declares has an entry in the index, a scan of [p]
    that nothing interrupts lists for [p] the same set of namespaces as
    before. *)
Lemma rescan_same_set_whole (p : string) (lines : list string) (db : ImportDB)
    (n : string) :
  (∀ k, k ∈ listed p db → k ∈ declares lines) →
  (∀ k, k ∈ declares lines → is_Some (JsMap.get k (imports db))) →
  n ∈ listed p (scan_whole p lines db) ↔ n ∈ listed p db.
Proof.
  intros Hsub Hheld. rewrite scan_whole_listed_same, scan_lines_found.
  rewrite removeFile_get. split.
  - intros [Hd Hget]. destruct (decide (n ∈ listed p db)); [done|].
    apply Hheld in Hd as [i Hi]. congruence.
  - intros Hin. split; [by apply Hsub|]. by rewrite decide_True.
Qed.

(** * Further properties of the index *)

(** ** What an uninterrupted scan lists, and scanning twice *)

Lemma delete_filter {V : Type} (k : string) (m : list (string * V)) :
  JsMap.delete k m = filter (λ e, e.1 ≠ k) m.
Proof.
  induction m as [|[k0 v0] m IH]; simpl; [done|].
  destruct (String.eqb_spec k k0) as [->|Hne].
  - by rewrite filter_cons_False by (simpl; tauto).
  - rewrite filter_cons_True by (simpl; congruence). by rewrite IH.
Qed.

Lemma delete_all_filter {V : Type} (ns : list string)
    (m : list (string * V)) :
  foldl (λ m n, JsMap.delete n m) m ns = filter (λ e, e.1 ∉ ns) m.
Proof.
  revert m. induction ns as [|n ns IH]; intros m.
  - simpl. induction m as [|e m IHm]; [done|].
    rewrite filter_cons_True by apply not_elem_of_nil. by rewrite <-IHm.
  - simpl. rewrite IH, delete_filter. clear IH.
    induction m as [|e m IHm]; [done|].
    destruct (decide (e.1 = n)) as [He|He].
    + rewrite (filter_cons_False (λ e, e.1 ≠ n)) by tauto.
      rewrite (filter_cons_False (λ e, e.1 ∉ n :: ns)); [done|].
      rewrite elem_of_cons. tauto.
    + rewrite (filter_cons_True (λ e, e.1 ≠ n)) by done.
      destruct (decide (e.1 ∈ ns)) as [Hin|Hout].
      * rewrite !filter_cons_False; [done| |tauto].
        rewrite elem_of_cons. tauto.
      * rewrite !filter_cons_True; [by rewrite IHm| |done].
        rewrite elem_of_cons. tauto.
Qed.

Lemma filter_all {A : Type} (P : A → Prop) `{∀ x, Decision (P x)}
    (l : list A) :
  Forall P l → filter P l = l.
Proof.
  induction 1 as [|x l Hx _ IH]; [done|].
  by rewrite filter_cons_True, IH.
Qed.

Lemma filter_none {A : Type} (P : A → Prop) `{∀ x, Decision (P x)}
    (l : list A) :
  Forall (λ x, ¬ P x) l → filter P l = [].
Proof.
  induction 1 as [|x l Hx _ IH]; [done|].
  by rewrite filter_cons_False.
Qed.

(** Deleting what a scan found gives back the map the scan started from. *)
Lemma delete_all_scan_lines (p : string) (lines : list string)
    (m : list (string * ImportInfo)) :
  foldl (λ m n, JsMap.delete n m) (scan_lines p lines m).1
    (Scan.found (scan_lines p lines m).2) = m.
Proof.
  destruct (scan_inv_lines p lines m) as (new & -> & <- & _ & Hall & _).
  rewrite delete_all_filter, filter_app.
  rewrite filter_all, filter_none; [apply app_nil_r| |].
  - apply Forall_forall. intros e He Hno. destruct Hno.
    by apply list_elem_of_fmap_2.
  - apply Forall_forall. intros [k v] Hk. simpl.
    intros (e & -> & He)%list_elem_of_fmap.
    rewrite Forall_forall in Hall. destruct (Hall e He) as (_ & _ & Hm & _).
    apply get_None_keys in Hm. destruct Hm.
    by apply (list_elem_of_fmap_2 fst) in Hk.
Qed.

Lemma scan_whole_found_nil (p : string) (lines : list string) (db : ImportDB) :
  Scan.found (scan_lines p lines (imports (removeFile p db))).2 = [] →
  scan_whole p lines db = removeFile p db.
Proof.
  intros Hnil. unfold scan_whole, on_close.
  rewrite (scan_lines_nothing_found _ _ _ Hnil), Hnil. simpl.
  by destruct (removeFile p db).
Qed.

Lemma scan_whole_found_cons (p : string) (lines : list string) (db : ImportDB) :
  Scan.found (scan_lines p lines (imports (removeFile p db))).2 ≠ [] →
  scan_whole p lines db
  = {| imports := (scan_lines p lines (imports (removeFile p db))).1;
       files := <[p := Scan.found
                         (scan_lines p lines (imports (removeFile p db))).2]>
                  (files db);
       workspace := workspace db;
       completions := None;
       allocated := allocated db |}.
Proof.
  intros Hne. unfold scan_whole, on_close.
  destruct (Scan.found _) as [|n ns] eqn:Hf; [done|]. simpl.
  rewrite removeFile_files, insert_delete_eq, removeFile_allocated.
  f_equal. unfold removeFile. by destruct (files db !! p).
Qed.

Lemma removeFile_twice (p : string) (db : ImportDB) :
  removeFile p (removeFile p db) = removeFile p db.
Proof.
  apply removeFile_absent. by rewrite removeFile_files, lookup_delete_eq.
Qed.

(** What a scan of [p] that nothing interrupts lists for [p]: the
    namespaces the content declares that have no entry in the index without
    [p]'s entries, in the order of the content. *)
Lemma scan_whole_lists (p : string) (lines : list string) (db : ImportDB) :
  listed p (scan_whole p lines db)
  = filter (λ n, JsMap.has n (imports (removeFile p db)) = false)
      (declares lines).
Proof. rewrite scan_whole_listed_same, scan_lines_locals. done. Qed.

(** Two scans of the same content for the same path, each uninterrupted,
    give the index of the first. *)
Lemma scan_whole_twice (p : string) (lines : list string)
    (db : ImportDB) :
  scan_whole p lines (scan_whole p lines db) = scan_whole p lines db.
Proof.
  destruct (Scan.found (scan_lines p lines (imports (removeFile p db))).2)
    as [|n ns] eqn:Hf.
  - rewrite (scan_whole_found_nil p lines db Hf).
    rewrite <-(removeFile_twice p db) at 2.
    apply scan_whole_found_nil. by rewrite removeFile_twice.
  - assert (Hne : Scan.found
              (scan_lines p lines (imports (removeFile p db))).2 ≠ [])
      by (by rewrite Hf).
    rewrite (scan_whole_found_cons p lines db Hne).
    set (s := scan_lines p lines (imports (removeFile p db))) in *.
    assert (Hback : imports (removeFile p
      {| imports := s.1; files := <[p:=Scan.found s.2]> (files db);
         workspace := workspace db; completions := None;
         allocated := allocated db |}) = imports (removeFile p db)).
    { unfold removeFile at 1. simpl. rewrite lookup_insert_eq. simpl.
      apply delete_all_scan_lines. }
    rewrite scan_whole_found_cons; rewrite Hback; fold s; [|done].
    simpl. by rewrite insert_insert_eq.
Qed.

(** X3.  Scanning content that declares nothing, an empty file included,
    does what [removeFile] does. *)
Theorem scanFile_declares_nothing (p : string) (lines : list string)
    (db : ImportDB) :
  declares lines = [] → scan_whole p lines db = removeFile p db.
Proof.
  intros H. apply scan_whole_found_nil. by rewrite scan_lines_locals, H.
Qed.

Lemma scanFile_declares_nothing_witness :
  scan_whole "dom.d.ts" symbols_file two_files_db
  = removeFile "dom.d.ts" two_files_db.
Proof.
  apply (scanFile_declares_nothing "dom.d.ts" symbols_file two_files_db).
  vm_compute. reflexivity.
Defined.

(** [removeFile p] after an uninterrupted scan of [p] leaves the forward
    map, order included, and the reverse mapping as [removeFile p] alone
    does. *)
Lemma removeFile_after_scan_whole (p : string) (lines : list string)
    (db : ImportDB) :
  imports (removeFile p (scan_whole p lines db)) = imports (removeFile p db)
  ∧ files (removeFile p (scan_whole p lines db)) = files (removeFile p db).
Proof.
  destruct (Scan.found (scan_lines p lines (imports (removeFile p db))).2)
    as [|n ns] eqn:Hf.
  - by rewrite (scan_whole_found_nil p lines db Hf), removeFile_twice.
  - rewrite scan_whole_found_cons by (by rewrite Hf). split.
    + unfold removeFile at 1. simpl. rewrite lookup_insert_eq. simpl.
      apply delete_all_scan_lines.
    + rewrite !removeFile_files. simpl. by rewrite delete_insert_eq.
Qed.

(** ** Rows of the reverse mapping *)

Lemma rows_ok_removeFile (p : string) (db : ImportDB) :
  rows_ok db → rows_ok (removeFile p db).
Proof.
  intros H q ns. rewrite removeFile_files. intros [_ Hq]%lookup_delete_Some.
  by apply (H q).
Qed.

Lemma rows_ok_scan_whole (p : string) (lines : list string) (db : ImportDB) :
  rows_ok db → rows_ok (scan_whole p lines db).
Proof.
  intros H.
  destruct (Scan.found (scan_lines p lines (imports (removeFile p db))).2)
    as [|n ns] eqn:Hf.
  - rewrite (scan_whole_found_nil p lines db Hf). by apply rows_ok_removeFile.
  - rewrite scan_whole_found_cons by (by rewrite Hf). intros q l. simpl.
    destruct (decide (q = p)) as [->|Hne].
    + rewrite lookup_insert_eq. intros [= <-]. rewrite Hf. split; [done|].
      rewrite <-Hf.
      by destruct (scan_inv_lines p lines (imports (removeFile p db)))
        as (? & _ & _ & ? & _).
    + rewrite lookup_insert_ne by done. apply H.
Qed.

Lemma rows_ok_run_whole (prebaked : list ImportInfo) (cs : list call) :
  rows_ok (run_whole prebaked cs new_ImportDB).
Proof.
  unfold run_whole. apply foldl_preserves.
  - intros p ns. simpl. by rewrite lookup_empty.
  - intros db [p lines|p|] Hdb; simpl.
    + by apply rows_ok_scan_whole.
    + by apply rows_ok_removeFile.
    + unfold getCompletions. by destruct (completions db).
Qed.

Lemma files_agree_reached (prebaked : list ImportInfo) (cs : list call)
    (p n : string) :
  n ∈ listed p (run_whole prebaked cs new_ImportDB) ↔
  ∃ i, JsMap.get n (imports (run_whole prebaked cs new_ImportDB)) = Some i
     ∧ sourcepath i = p.
Proof. apply files_agree_run_whole, files_agree_new. Qed.

(** X5.  After any calls on a new index, each waiting for the reader of
    the one before, a row of the reverse mapping is
    never empty and never repeats a namespace, and no namespace is listed
    for two paths. *)
Theorem rows_well_formed (prebaked : list ImportInfo) (cs : list call)
    (p q n : string) (ns : list string) :
  (files (run_whole prebaked cs new_ImportDB) !! p = Some ns →
   ns ≠ [] ∧ NoDup ns)
  ∧ (n ∈ listed p (run_whole prebaked cs new_ImportDB) →
     n ∈ listed q (run_whole prebaked cs new_ImportDB) → p = q).
Proof.
  split; [apply rows_ok_run_whole|].
  intros (i & Hi & <-)%files_agree_reached (j & Hj & <-)%files_agree_reached.
  congruence.
Qed.

(** ** What a scan leaves alone, and the order of the forward map *)

(** X6.  When every namespace listed for [p] has [sourcepath] [p], a scan
    of [p] that nothing interrupts keeps every entry whose [sourcepath] is
    not [p] and every other path's row. *)
Theorem scanFile_frame (p : string) (lines : list string) (db : ImportDB) :
  (∀ n i, n ∈ listed p db → JsMap.get n (imports db) = Some i →
          sourcepath i = p) →
  (∀ n i, JsMap.get n (imports db) = Some i → sourcepath i ≠ p →
          JsMap.get n (imports (scan_whole p lines db)) = Some i)
  ∧ (∀ q, q ≠ p → files (scan_whole p lines db) !! q = files db !! q).
Proof.
  intros Hown. split.
  - intros n i Hget Hsp. rewrite scan_whole_imports.
    assert (Hkept : JsMap.get n (imports (removeFile p db)) = Some i).
    { rewrite removeFile_get.
      destruct (decide (n ∈ listed p db)) as [Hin|]; [|done].
      destruct Hsp. by apply (Hown n i). }
    rewrite scan_lines_other_get; [done|].
    intros (_ & Hnone)%scan_lines_found. congruence.
  - intros q Hq.
    destruct (Scan.found (scan_lines p lines (imports (removeFile p db))).2)
      as [|k ks] eqn:Hf.
    + rewrite (scan_whole_found_nil p lines db Hf), removeFile_files.
      by rewrite lookup_delete_ne.
    + rewrite scan_whole_found_cons by (by rewrite Hf). simpl.
      by rewrite lookup_insert_ne.
Qed.

Lemma scanFile_frame_witness :
  JsMap.get "goog.ui.Button"
    (imports (scan_whole "dom.d.ts" dom_events_file two_files_db))
  = Some {| name := "Button"; namespace := "goog.ui.Button";
            module := false; sourcepath := "ui.d.ts" |}.
Proof.
  assert (Hown : ∀ n i, n ∈ listed "dom.d.ts" two_files_db →
                        JsMap.get n (imports two_files_db) = Some i →
                        sourcepath i = "dom.d.ts").
  { intros n i Hin.
    replace (listed "dom.d.ts" two_files_db) with ["goog.dom"] in Hin
      by (vm_compute; reflexivity).
    apply list_elem_of_singleton in Hin as ->.
    vm_compute. by intros [= <-]. }
  destruct (scanFile_frame "dom.d.ts" dom_events_file two_files_db Hown)
    as [Hkeep _].
  apply Hkeep; [vm_compute; reflexivity | vm_compute; discriminate].
Defined.

Lemma removeFile_imports_filter (p : string) (db : ImportDB) :
  imports (removeFile p db)
  = filter (λ e, e.1 ∉ listed p db) (imports db).
Proof.
  unfold removeFile, listed. destruct (files db !! p) as [ns|]; simpl.
  - apply delete_all_filter.
  - symmetry. apply filter_all, Forall_forall. intros e _.
    apply not_elem_of_nil.
Qed.

(** X7.  A scan of [p] that nothing interrupts drops from the forward map
    the entries listed for [p], keeps the others in their order, and puts
    the entries it adds after them, in the order in which it lists them for
    [p]; each has [sourcepath] [p]. *)
Theorem scanFile_order (p : string) (lines : list string) (db : ImportDB) :
  ∃ new,
    imports (scan_whole p lines db)
    = filter (λ e, e.1 ∉ listed p db) (imports db) ++ new
    ∧ new.*1 = listed p (scan_whole p lines db)
    ∧ Forall (λ e, sourcepath e.2 = p) new.
Proof.
  rewrite scan_whole_imports, scan_whole_listed_same.
  rewrite <-removeFile_imports_filter.
  destruct (scan_inv_lines p lines (imports (removeFile p db)))
    as (new & Hm & Hk & _ & Hall & _).
  exists new. repeat split; try done.
  eapply Forall_impl; [exact Hall|]. by intros e (? & _).
Qed.

(** ** The fields of an entry *)

Lemma startsWith_dot (s : string) :
  startsWith s "." = match s with
                     | EmptyString => false
                     | String c _ => Ascii.eqb "." c
                     end.
Proof. destruct s as [|c s]; simpl; [done|]. apply andb_true_r. Qed.

Lemma lastIndexOf_from_dot (s : string) (i : Z) :
  0 ≤ i →
  (lastIndexOf_from s "." i = -1 ∧ occurs "." s = false)
  ∨ (∃ pre post, s = pre +:+ "." +:+ post ∧ occurs "." post = false
       ∧ lastIndexOf_from s "." i = i + Z.of_nat (String.length pre)).
Proof.
  revert i. induction s as [|c s IH]; intros i Hi.
  - left. by simpl.
  - cbn [lastIndexOf_from]. rewrite startsWith_dot.
    destruct (IH (i + 1)) as [[Hr Hno]|(pre & post & -> & Hno & Hr)]; [lia| |].
    + rewrite Hr. simpl (-1 =? -1).
      destruct (Ascii.eqb_spec "." c) as [<-|Hc].
      * right. exists "", s. repeat split; [done|]. simpl. lia.
      * left. split; [done|]. cbn [occurs]. rewrite Hno.
        apply Ascii.eqb_neq in Hc. by rewrite Hc.
    + right. exists (String c pre), post.
      rewrite Hr. destruct (_ =? -1) eqn:E; [lia|].
      repeat split; [done|]. cbn [String.length]. lia.
Qed.

Lemma string_app_cons (c : ascii) (s t : string) :
  String c s +:+ t = String c (s +:+ t).
Proof. reflexivity. Qed.

Lemma string_app_nil_l (t : string) : "" +:+ t = t.
Proof. reflexivity. Qed.

Lemma string_app_assoc (s t u : string) : (s +:+ t) +:+ u = s +:+ t +:+ u.
Proof.
  induction s as [|c s IH]; [done|]. by rewrite !string_app_cons, IH.
Qed.

Lemma string_length_app (s t : string) :
  String.length (s +:+ t) = (String.length s + String.length t)%nat.
Proof.
  induction s as [|c s IH]; [done|].
  rewrite string_app_cons. cbn [String.length]. by rewrite IH.
Qed.

Lemma string_drop_app (pre post : string) :
  string_drop (String.length pre) (pre +:+ post) = post.
Proof. induction pre as [|c pre IH]; [by destruct post|done]. Qed.

Lemma last_segment_spec (ns : string) :
  occurs "." (last_segment ns) = false
  ∧ (ns = last_segment ns ∨ ∃ pre, ns = pre +:+ "." +:+ last_segment ns).
Proof.
  unfold last_segment, lastIndexOf.
  destruct (lastIndexOf_from_dot ns 0) as [[Hr Hno]|(pre & post & -> & Hno & Hr)];
    [lia| |].
  - rewrite Hr. simpl. by split; [|left].
  - rewrite Hr. destruct (_ =? -1) eqn:E; [lia|]. clear E.
    assert (Hpost : substr (pre +:+ "." +:+ post)
                      (0 + Z.of_nat (String.length pre) + 1) = post).
    { unfold substr. destruct (_ <? 0) eqn:E; [lia|].
      assert (Hlen : Z.to_nat (0 + Z.of_nat (String.length pre) + 1)
                     = String.length (pre +:+ ".")).
      { rewrite string_length_app. cbn [String.length]. lia. }
      rewrite Hlen, <-string_app_assoc. apply string_drop_app. }
    rewrite Hpost. split; [done|]. right. by exists pre.
Qed.

Lemma indexOf_from_absent (c : ascii) (s : string) (i : Z) :
  occurs c s = false → indexOf_from s (String c "") i = -1.
Proof.
  revert i. induction s as [|c' s IH]; intros i; simpl; [done|].
  intros [Hc Hs]%orb_false_elim. rewrite Hc. simpl. by apply IH.
Qed.

Lemma on_declare_active (ns : string) (st : Scan.locals) :
  active_ok (on_declare ns st).
Proof.
  unfold on_declare, active_ok. simpl.
  destruct (truthy (Scan.skip st) && startsWith ns (Scan.skip st)); [done|].
  destruct (truthy (Scan.skip st)); simpl;
    (destruct (blacklisted ns); [done|]);
    (destruct (bool_decide (ns ∈ deprecated)) eqn:Hd; [done|]);
    simpl; intros _; (split; [done|]);
    by apply bool_decide_eq_false in Hd.
Qed.

Lemma entries_ok_on_line (path l : string)
    (s : list (string * ImportInfo) * Scan.locals) :
  Forall entry_ok s.1 ∧ active_ok s.2 →
  Forall entry_ok (on_line path s l).1 ∧ active_ok (on_line path s l).2.
Proof.
  intros [Hall Hact]. unfold on_line.
  destruct (match_declare l) as [ns|]; simpl.
  { split; [done|apply on_declare_active]. }
  assert (Hexp : ∀ b, truthy (Scan.namespace s.2) = true →
            Forall entry_ok (on_export path b s).1
            ∧ active_ok (on_export path b s).2).
  { intros b Ht. destruct s as [m st]. unfold on_export. simpl in *.
    destruct (JsMap.has (Scan.namespace st) m) eqn:Hhas; [done|].
    apply has_false in Hhas. rewrite set_fresh by done. simpl. split; [|done].
    apply Forall_app. split; [done|]. apply Forall_singleton.
    destruct (Hact Ht) as [Hname Hdep].
    repeat split; simpl; try done.
    intros E. by rewrite E in Ht. }
  destruct (truthy (Scan.namespace s.2)) eqn:Ht; simpl; [|done].
  destruct (negb (indexOf l "export = alias" =? -1)); [by apply Hexp|].
  destruct (negb (indexOf l "export default alias" =? -1)); [by apply Hexp|done].
Qed.

Lemma entries_ok_scan_lines (path : string) (lines : list string)
    (m : list (string * ImportInfo)) :
  Forall entry_ok m → Forall entry_ok (scan_lines path lines m).1.
Proof.
  intros Hm. unfold scan_lines.
  apply (foldl_preserves (λ s, Forall entry_ok s.1 ∧ active_ok s.2)).
  - split; [done|]. by intros ?.
  - intros s l. apply entries_ok_on_line.
Qed.

Lemma entries_ok_run_whole (prebaked : list ImportInfo) (cs : list call) :
  Forall entry_ok (imports (run_whole prebaked cs new_ImportDB)).
Proof.
  unfold run_whole.
  apply (foldl_preserves (λ db, Forall entry_ok (imports db))).
  - apply Forall_nil_2.
  - intros db [p lines|p|] Hdb; simpl.
    + rewrite scan_whole_imports. apply entries_ok_scan_lines.
      rewrite removeFile_imports_filter. apply Forall_forall.
      intros e [_ He]%list_elem_of_filter. rewrite Forall_forall in Hdb.
      by apply Hdb.
    + rewrite removeFile_imports_filter. apply Forall_forall.
      intros e [_ He]%list_elem_of_filter. rewrite Forall_forall in Hdb.
      by apply Hdb.
    + unfold getCompletions. by destruct (completions db).
Qed.

(** X8.  After any calls on a new index, each waiting for the reader of
    the one before, the entry stored under a key [n] carries [n] as its
    [namespace]; [n] is not empty and not in the deprecated set; and its
    [name] has no dot and is [n] itself or what follows the last dot of
    [n]. *)
Theorem entry_well_formed (prebaked : list ImportInfo) (cs : list call)
    (n : string) (i : ImportInfo) :
  JsMap.get n (imports (run_whole prebaked cs new_ImportDB)) = Some i →
  namespace i = n ∧ n ≠ "" ∧ (n ∉ deprecated)
  ∧ indexOf (name i) "." = -1
  ∧ (n = name i ∨ ∃ pre, n = pre +:+ "." +:+ name i).
Proof.
  intros Hget%get_Some_elem_of.
  pose proof (entries_ok_run_whole prebaked cs) as Hall.
  rewrite Forall_forall in Hall.
  destruct (Hall _ Hget) as (Hns & Hname & Hne & Hdep). simpl in *.
  destruct (last_segment_spec n) as [Hdot Hend].
  rewrite Hname. repeat split; try done.
  by apply indexOf_from_absent.
Qed.

Lemma entry_well_formed_witness :
  namespace {| name := "Button"; namespace := "goog.ui.Button";
               module := false; sourcepath := "ui.d.ts" |}
  = "goog.ui.Button"
  ∧ "goog.ui.Button" ≠ "" ∧ ("goog.ui.Button" ∉ deprecated)
  ∧ indexOf "Button" "." = -1
  ∧ ("goog.ui.Button" = "Button"
     ∨ ∃ pre, "goog.ui.Button" = pre +:+ "." +:+ "Button").
Proof.
  apply (entry_well_formed sample_prebaked
           [ScanFile "dom.d.ts" dom_file; ScanFile "ui.d.ts" tabpane_file]
           "goog.ui.Button"
           {| name := "Button"; namespace := "goog.ui.Button";
              module := false; sourcepath := "ui.d.ts" |}).
  vm_compute. reflexivity.
Defined.

(** ** The declaration pattern *)

Lemma startsWith_app (p t : string) : startsWith (p +:+ t) p = true.
Proof.
  induction p as [|c p IH]; [done|].
  rewrite string_app_cons. cbn [startsWith]. by rewrite Ascii.eqb_refl.
Qed.

Lemma startsWith_inv (s p : string) :
  startsWith s p = true → s = p +:+ string_drop (String.length p) s.
Proof.
  revert s. induction p as [|c p IH]; intros s; [done|].
  destruct s as [|c' s]; [done|]. cbn [startsWith].
  intros [Hc Hs]%andb_true_iff. apply Ascii.eqb_eq in Hc as ->.
  rewrite string_app_cons. cbn [String.length string_drop]. f_equal.
  by apply IH.
Qed.

Lemma all_chars_app (P : ascii → bool) (s t : string) :
  all_chars P (s +:+ t) = all_chars P s && all_chars P t.
Proof.
  induction s as [|c s IH]; [done|].
  rewrite string_app_cons. cbn [all_chars]. by rewrite IH, andb_assoc.
Qed.

Lemma dot_run_app (s t : string) :
  dots_only s = true → dot_run (s +:+ t) = s +:+ dot_run t.
Proof.
  unfold dots_only. induction s as [|c s IH]; [done|].
  cbn [all_chars]. intros [Hc Hs]%andb_true_iff.
  rewrite !string_app_cons. cbn [dot_run].
  apply negb_true_iff in Hc. rewrite Hc. by rewrite IH.
Qed.

Lemma dot_run_split (s : string) :
  ∃ t, s = dot_run s +:+ t ∧ dots_only (dot_run s) = true.
Proof.
  unfold dots_only. induction s as [|c s (t & Ht & Hd)]; [by exists ""|].
  cbn [dot_run]. destruct (is_line_terminator c) eqn:Hc.
  - by exists (String c s).
  - exists t. rewrite string_app_cons, <-Ht. cbn [all_chars].
    by rewrite Hc, Hd.
Qed.

Lemma quote_free_dot_run (s : string) :
  quote_free s = true → quote_free (dot_run s) = true.
Proof.
  unfold quote_free. induction s as [|c s IH]; [done|].
  cbn [all_chars dot_run]. intros [Hc Hs]%andb_true_iff.
  destruct (is_line_terminator c); [done|]. cbn [all_chars].
  by rewrite Hc, IH.
Qed.

Lemma before_last_quote_none (s : string) :
  quote_free s = true → before_last_quote s = None.
Proof.
  unfold quote_free. induction s as [|c s IH]; [done|].
  cbn [all_chars before_last_quote]. intros [Hc Hs]%andb_true_iff.
  rewrite IH by done. apply negb_true_iff in Hc. by rewrite Hc.
Qed.

Lemma before_last_quote_app (s t : string) :
  quote_free t = true → before_last_quote (s +:+ "'" +:+ t) = Some s.
Proof.
  intros Ht. induction s as [|c s IH].
  - change ("" +:+ "'" +:+ t) with (String "'" t).
    cbn [before_last_quote]. by rewrite before_last_quote_none.
  - rewrite string_app_cons. cbn [before_last_quote]. by rewrite IH.
Qed.

Lemma before_last_quote_inv (s t : string) :
  before_last_quote s = Some t → ∃ u, s = t +:+ "'" +:+ u.
Proof.
  revert t. induction s as [|c s IH]; intros t; [done|].
  cbn [before_last_quote].
  destruct (before_last_quote s) as [t'|] eqn:Hs.
  - intros [= <-]. destruct (IH t') as [u ->]; [done|]. by exists u.
  - destruct (Ascii.eqb_spec c "'") as [->|]; [|done].
    intros [= <-]. by exists s.
Qed.

Lemma match_declare_here (l ns : string) :
  match_here l = Some ns → match_declare l = Some ns.
Proof. intros H. destruct l; cbn [match_declare]; by rewrite H. Qed.

Lemma capture_group_inv (r ns : string) :
  capture_group r = Some ns →
  ns ≠ "" ∧ dots_only ns = true ∧ ∃ post, r = ns +:+ "'" +:+ post.
Proof.
  unfold capture_group. destruct (dot_run_split r) as (t & Hr & Hd).
  destruct (dot_run r) as [|c run_whole]; [done|].
  destruct (before_last_quote run_whole) as [b|] eqn:Hb; [|done].
  intros [= <-]. apply before_last_quote_inv in Hb as [u ->].
  split; [done|]. split.
  - unfold dots_only in *. rewrite <-string_app_cons, all_chars_app in Hd.
    by apply andb_true_iff in Hd as [? _].
  - exists (u +:+ t). rewrite Hr at 1.
    by rewrite !string_app_cons, !string_app_assoc.
Qed.

Lemma capture_after_prefix (body rest : string) :
  body ≠ "" → dots_only body = true → quote_free rest = true →
  match_declare (declare_prefix +:+ body +:+ "'" +:+ rest) = Some body.
Proof.
  intros Hne Hbody Hrest. apply match_declare_here. unfold match_here.
  rewrite startsWith_app, string_drop_app. unfold capture_group.
  rewrite dot_run_app by done.
  change ("'" +:+ rest) with (String "'" rest). cbn [dot_run].
  change (is_line_terminator "'") with false. cbn match.
  destruct body as [|c b]; [done|]. rewrite string_app_cons.
  change (String "'" (dot_run rest)) with ("'" +:+ dot_run rest).
  by rewrite before_last_quote_app by by apply quote_free_dot_run.
Qed.

Lemma match_declare_inv (l ns : string) :
  match_declare l = Some ns →
  ns ≠ "" ∧ dots_only ns = true
  ∧ ∃ pre post, l = pre +:+ declare_prefix +:+ ns +:+ "'" +:+ post.
Proof.
  induction l as [|c l IH].
  - cbn [match_declare]. by change (match_here "") with (@None string).
  - cbn [match_declare].
    destruct (match_here (String c l)) as [ns'|] eqn:Hhere.
    + intros [= ->]. unfold match_here in Hhere.
      destruct (startsWith (String c l) declare_prefix) eqn:Hs; [|done].
      apply capture_group_inv in Hhere as (Hne & Hd & post & Hpost).
      split; [done|]. split; [done|]. exists "", post.
      rewrite string_app_nil_l, <-Hpost. by apply startsWith_inv.
    + intros H. destruct (IH H) as (Hne & Hd & pre & post & ->).
      split; [done|]. split; [done|]. by exists (String c pre), post.
Qed.

(** X9.  A line that begins with [declare module 'goog:], goes on with a
    non-empty text without line terminator, a quote, and has no quote after
    that, is a declaration line, and the namespace captured is the whole
    text before that last quote, quotes inside it included. *)
Theorem match_declare_captures (body rest : string) :
  body ≠ "" → dots_only body = true → quote_free rest = true →
  match_declare ("declare module 'goog:" +:+ body +:+ "'" +:+ rest)
  = Some body.
Proof. apply capture_after_prefix. Qed.

Lemma match_declare_captures_witness :
  match_declare
    ("declare module 'goog:" +:+ "goog.ui.Button" +:+ "'" +:+ " {")
  = Some "goog.ui.Button".
Proof.
  apply (match_declare_captures "goog.ui.Button" " {");
    [discriminate | vm_compute; reflexivity | vm_compute; reflexivity].
Defined.

(** X10.  A namespace the declaration pattern captures is never empty and
    holds no line terminator, and the line reads: some text,
    [declare module 'goog:], the namespace, a quote, some text. *)
Theorem match_declare_sound (l ns : string) :
  match_declare l = Some ns →
  ns ≠ "" ∧ dots_only ns = true
  ∧ ∃ pre post, l = pre +:+ "declare module 'goog:" +:+ ns +:+ "'" +:+ post.
Proof. apply match_declare_inv. Qed.

Lemma match_declare_sound_witness :
  "goog.dom" ≠ "" ∧ dots_only "goog.dom" = true
  ∧ ∃ pre post, "  declare module 'goog:goog.dom' {"
                = pre +:+ "declare module 'goog:" +:+ "goog.dom" +:+ "'"
                  +:+ post.
Proof.
  apply (match_declare_sound "  declare module 'goog:goog.dom' {" "goog.dom").
  vm_compute. reflexivity.
Defined.

Lemma indexOf_from_absent_step (s sub : string) (i : Z) :
  0 ≤ i → indexOf_from s sub i = -1 →
  startsWith s sub = false
  ∧ ∀ c s', s = String c s' → indexOf_from s' sub (i + 1) = -1.
Proof.
  intros Hi. destruct s as [|c s]; cbn [indexOf_from];
    destruct (startsWith _ sub); try lia; intros H; (split; [done|]);
    intros c' s' [=]; by subst.
Qed.

Lemma match_declare_absent (l : string) (i : Z) :
  0 ≤ i → indexOf_from l declare_prefix i = -1 → match_declare l = None.
Proof.
  revert i. induction l as [|c l IH]; intros i Hi H;
    destruct (indexOf_from_absent_step _ _ _ Hi H) as [Hs Hrest];
    cbn [match_declare]; unfold match_here; rewrite Hs; [done|].
  apply (IH (i + 1)); [lia|]. by apply (Hrest c l).
Qed.

(** X11.  A line that does not contain [declare module 'goog:] is never a
    declaration line: while a namespace is active it can only be an
    export marker, and otherwise it changes nothing. *)
Theorem no_prefix_no_declaration (path l : string)
    (m : list (string * ImportInfo)) (st : Scan.locals) :
  indexOf l "declare module 'goog:" = -1 →
  match_declare l = None
  ∧ (Scan.namespace st = "" → on_line path (m, st) l = (m, st))
  ∧ Scan.skip (on_line path (m, st) l).2 = Scan.skip st.
Proof.
  intros H. assert (Hnone : match_declare l = None)
    by (by apply (match_declare_absent l 0)).
  split; [done|]. unfold on_line. rewrite Hnone. simpl. split.
  - by intros ->.
  - unfold on_export. simpl.
    destruct (truthy (Scan.namespace st)); simpl; [|done].
    destruct (negb (indexOf l "export = alias" =? -1));
      [by destruct (JsMap.has _ m)|].
    destruct (negb (indexOf l "export default alias" =? -1));
      [by destruct (JsMap.has _ m)|done].
Qed.

Lemma no_prefix_no_declaration_witness :
  match_declare "  export default alias;" = None
  ∧ (Scan.namespace Scan.init = "" →
     on_line "a.d.ts" ([], Scan.init) "  export default alias;"
     = ([], Scan.init))
  ∧ Scan.skip (on_line "a.d.ts" ([], Scan.init) "  export default alias;").2
    = Scan.skip Scan.init.
Proof.
  apply (no_prefix_no_declaration "a.d.ts" "  export default alias;" []
           Scan.init).
  vm_compute. reflexivity.
Defined.

(** ** Scanning a printed file *)

Lemma match_declare_quote_free (l : string) :
  quote_free l = true → match_declare l = None.
Proof.
  intros Hq. destruct (match_declare l) as [ns|] eqn:H; [|done].
  apply match_declare_inv in H as (_ & _ & pre & post & ->).
  unfold quote_free in Hq. rewrite !all_chars_app in Hq.
  by repeat (apply andb_true_iff in Hq as [? Hq]).
Qed.

Lemma printable_inv (ns : string) :
  printable ns = true →
  ns ≠ "" ∧ dots_only ns = true ∧ quote_free ns = true
  ∧ blacklisted ns = false ∧ bool_decide (ns ∈ deprecated) = false
  ∧ indexOf (import_line ns) "export = alias" = -1
  ∧ indexOf (import_line ns) "export default alias" = -1.
Proof.
  unfold printable. intros H.
  apply andb_prop in H as [H H7]. apply andb_prop in H as [H H6].
  apply andb_prop in H as [H H5]. apply andb_prop in H as [H H4].
  apply andb_prop in H as [H H3]. apply andb_prop in H as [H1 H2].
  split; [intros ->; discriminate H1|].
  split; [exact H2|]. split; [exact H3|].
  split; [by apply negb_true_iff|]. split; [by apply negb_true_iff|].
  split; by apply Z.eqb_eq.
Qed.

Lemma on_line_declare_printable (path ns : string)
    (m : list (string * ImportInfo)) (st : Scan.locals) :
  printable ns = true → Scan.skip st = "" →
  on_line path (m, st) ("declare module 'goog:" +:+ ns +:+ "' {")
  = (m, {| Scan.namespace := ns; Scan.name := last_segment ns;
           Scan.skip := ""; Scan.found := Scan.found st |}).
Proof.
  intros (Hne & Hd & _ & Hb & Hdep & _)%printable_inv Hskip.
  unfold on_line.
  change ("declare module 'goog:" +:+ ns +:+ "' {")
    with (declare_prefix +:+ ns +:+ "'" +:+ " {").
  rewrite capture_after_prefix by done. simpl. f_equal.
  unfold on_declare. simpl. rewrite Hskip. simpl. rewrite Hb, Hdep.
  unfold Scan.set_name, last_segment. simpl. by rewrite Hskip.
Qed.

Lemma on_line_import_printable (path ns : string)
    (m : list (string * ImportInfo)) (st : Scan.locals) :
  printable ns = true → on_line path (m, st) (import_line ns) = (m, st).
Proof.
  intros (_ & _ & Hq & _ & _ & H1 & H2)%printable_inv. unfold on_line.
  rewrite match_declare_quote_free.
  - rewrite H1, H2. simpl. by rewrite !andb_false_r.
  - unfold import_line, quote_free in *. rewrite !all_chars_app, Hq. done.
Qed.

Lemma on_line_marker (path : string) (b : bool)
    (m : list (string * ImportInfo)) (st : Scan.locals) :
  truthy (Scan.namespace st) = true →
  on_line path (m, st) ("  " +:+ marker b +:+ ";")
  = on_export path b (m, st).
Proof.
  intros Ht. unfold on_line. simpl fst. simpl snd. rewrite Ht.
  destruct b.
  - change ("  " +:+ marker true +:+ ";") with "  export = alias;".
    replace (match_declare "  export = alias;") with (@None string)
      by (vm_compute; reflexivity).
    by replace (indexOf "  export = alias;" "export = alias") with 2
      by (vm_compute; reflexivity).
  - change ("  " +:+ marker false +:+ ";") with "  export default alias;".
    replace (match_declare "  export default alias;") with (@None string)
      by (vm_compute; reflexivity).
    replace (indexOf "  export default alias;" "export = alias") with (-1)
      by (vm_compute; reflexivity).
    by replace (indexOf "  export default alias;" "export default alias")
      with 2 by (vm_compute; reflexivity).
Qed.

Lemma on_line_brace (path : string)
    (s : list (string * ImportInfo) * Scan.locals) :
  on_line path s "}" = s.
Proof.
  unfold on_line.
  replace (match_declare "}") with (@None string) by (vm_compute; reflexivity).
  replace (indexOf "}" "export = alias") with (-1) by (vm_compute; reflexivity).
  replace (indexOf "}" "export default alias") with (-1)
    by (vm_compute; reflexivity).
  simpl. by rewrite !andb_false_r.
Qed.

Lemma scan_lines_app (path : string) (l1 l2 : list string)
    (m : list (string * ImportInfo)) :
  scan_lines path (l1 ++ l2) m
  = foldl (on_line path) (scan_lines path l1 m) l2.
Proof. unfold scan_lines. apply foldl_app. Qed.

Lemma print_blocks_snoc (l : list (string * bool)) (ns : string) (b : bool) :
  print_blocks (l ++ [(ns, b)])
  = print_blocks l ++ module_block ns (marker b).
Proof.
  unfold print_blocks. rewrite fmap_app, concat_app. f_equal.
Qed.

Lemma scan_print_blocks (path : string) (l : list (string * bool)) :
  Forall (λ d, printable d.1 = true) l → NoDup l.*1 →
  (scan_lines path (print_blocks l) []).1 = block_entry path <$> l
  ∧ Scan.found (scan_lines path (print_blocks l) []).2 = l.*1
  ∧ Scan.skip (scan_lines path (print_blocks l) []).2 = "".
Proof.
  induction l as [|[ns b] l IH] using rev_ind; [done|].
  rewrite Forall_app, Forall_singleton, fmap_app, NoDup_app. simpl.
  intros [Hall Hp] (Hnd & Hnew & _).
  destruct (IH Hall Hnd) as (Hm & Hf & Hs). clear IH.
  rewrite print_blocks_snoc, scan_lines_app.
  destruct (scan_lines path (print_blocks l) []) as [m st]. simpl in *.
  subst m. unfold module_block. cbn [foldl].
  rewrite on_line_declare_printable by done.
  fold (import_line ns). rewrite on_line_import_printable by done.
  rewrite on_line_marker.
  2:{ simpl. apply printable_inv in Hp as (Hne & _). by destruct ns. }
  rewrite on_line_brace. unfold on_export. simpl.
  assert (Hfree : JsMap.get ns (block_entry path <$> l) = None).
  { apply get_None_keys. rewrite <-list_fmap_compose.
    intros Hin. apply (Hnew ns); [done|]. apply list_elem_of_singleton. done. }
  unfold JsMap.has. rewrite Hfree. simpl. rewrite set_fresh by done.
  by rewrite fmap_app, Hf.
Qed.

(** X12.  A file printed as one block per declaration, for distinct
    namespaces that are each printable, scanned into a new index, gives
    exactly one entry per declaration, in the order of the file, with the
    namespace as key, the text after its last dot as [name], [module] by
    its marker and the scanned path as [sourcepath]; the path's row lists
    the namespaces in that order. *)
Theorem scanFile_print_blocks (path : string) (l : list (string * bool)) :
  Forall (λ d, printable d.1 = true) l → NoDup l.*1 →
  imports (scan_whole path (print_blocks l) new_ImportDB)
  = block_entry path <$> l
  ∧ listed path (scan_whole path (print_blocks l) new_ImportDB) = l.*1.
Proof.
  intros Hall Hnd. rewrite scan_whole_imports, scan_whole_listed_same.
  change (imports (removeFile path new_ImportDB)) with (@nil (string * ImportInfo)).
  by destruct (scan_print_blocks path l Hall Hnd) as (? & ? & _).
Qed.

Lemma scanFile_print_blocks_witness :
  imports (scan_whole "ui.d.ts"
             (print_blocks [("goog.ui.Button", false); ("goog.dom", true)])
             new_ImportDB)
  = block_entry "ui.d.ts" <$> [("goog.ui.Button", false); ("goog.dom", true)]
  ∧ listed "ui.d.ts"
      (scan_whole "ui.d.ts"
         (print_blocks [("goog.ui.Button", false); ("goog.dom", true)])
         new_ImportDB)
    = [("goog.ui.Button", false); ("goog.dom", true)].*1.
Proof.
  apply (scanFile_print_blocks "ui.d.ts"
           [("goog.ui.Button", false); ("goog.dom", true)]).
  - repeat constructor; vm_compute; reflexivity.
  - apply NoDup_cons_2; [|apply NoDup_singleton].
    intros H%list_elem_of_singleton. discriminate H.
Defined.

(** ** The filters of [scanWorkspace] *)

Lemma string_take_drop (n : nat) (s : string) :
  ∃ pre, s = pre +:+ string_drop n s.
Proof.
  revert s. induction n as [|n IH]; intros s; [by exists ""|].
  destruct s as [|c s]; [by exists ""|].
  destruct (IH s) as [pre Hpre]. exists (String c pre).
  rewrite string_app_cons. cbn [string_drop]. by rewrite <-Hpre.
Qed.

Lemma endsWith_spec (s suf : string) :
  endsWith s suf = true ↔ ∃ pre, s = pre +:+ suf.
Proof.
  unfold endsWith. split.
  - intros [_ Heq%String.eqb_eq]%andb_true_iff.
    destruct (string_take_drop (String.length s - String.length suf) s)
      as [pre Hpre].
    exists pre. by rewrite Heq in Hpre.
  - intros [pre ->]. rewrite string_length_app. apply andb_true_iff. split.
    + apply Nat.leb_le. lia.
    + replace (String.length pre + String.length suf - String.length suf)%nat
        with (String.length pre) by lia.
      rewrite string_drop_app. apply String.eqb_refl.
Qed.

Lemma dot_plus_then_spec (suffix s : string) :
  dot_plus_then suffix s = true
  ↔ ∃ stem, stem ≠ "" ∧ dots_only stem = true ∧ s = stem +:+ suffix.
Proof.
  unfold dots_only. split.
  - induction s as [|c s IH]; [done|]. cbn [dot_plus_then].
    intros [Hc [Heq%String.eqb_eq|Hrec]%orb_true_iff]%andb_true_iff.
    + exists (String c ""). cbn [all_chars]. rewrite Hc. by subst.
    + destruct (IH Hrec) as (stem & _ & Hd & ->). exists (String c stem).
      cbn [all_chars]. by rewrite Hc, Hd.
  - intros (stem & Hne & Hd & ->). induction stem as [|c stem IH]; [done|].
    cbn [all_chars] in Hd. apply andb_true_iff in Hd as [Hc Hd].
    rewrite string_app_cons. cbn [dot_plus_then]. rewrite Hc. simpl.
    destruct stem as [|c' stem].
    + by rewrite string_app_nil_l, String.eqb_refl.
    + rewrite IH by done. apply orb_true_r.
Qed.

(** X13.  [filter.file] accepts a name exactly when it ends in [.d.ts];
    the bare name [.d.ts] is accepted. *)
Theorem filter_file_spec (name : string) :
  filter_file name = true ↔ ∃ stem, name = stem +:+ ".d.ts".
Proof. apply endsWith_spec. Qed.

(** X14.  [filter.directory] turns down exactly: a name of four code units
    that ends in [git], whatever its first code unit (but a line
    terminator); [node_modules]; and a name that ends in [.runfiles] after
    at least one code unit, with no line terminator before that ending. *)
Theorem filter_directory_spec (name : string) :
  filter_directory name = false
  ↔ (∃ c, is_line_terminator c = false ∧ name = String c "git")
    ∨ name = "node_modules"
    ∨ (∃ stem, stem ≠ "" ∧ dots_only stem = true
               ∧ name = stem +:+ ".runfiles").
Proof.
  unfold filter_directory, excluded_directory.
  rewrite negb_false_iff, !orb_true_iff, dot_plus_then_spec, String.eqb_eq.
  split.
  - intros [[H|H]|H]; [|tauto..]. left. destruct name as [|c rest]; [done|].
    apply andb_true_iff in H as [Hc ->%String.eqb_eq].
    exists c. by apply negb_true_iff in Hc.
  - intros [(c & Hc & ->)|[H|H]]; [|tauto..]. left. left.
    by rewrite Hc, String.eqb_refl.
Qed.

(** * Scans as events *)

Lemma set_imports_same (db : ImportDB) : set_imports (imports db) db = db.
Proof. by destruct db. Qed.

(** All the lines of the reader [id], one after the other. *)
Lemma emit_lines (prebaked : list ImportInfo) (id : nat) (p : string)
    (lines : list string) (st : Scan.locals) (db : ImportDB)
    (rs : gmap nat reader) (k : nat) :
  foldl (step prebaked)
    {| server_db := db;
       readers := <[id := {| reader_path := p; reader_pending := lines;
                             reader_locals := st |}]> rs;
       started := k |}
    (replicate (length lines) (Emit id))
  = {| server_db :=
         set_imports (foldl (on_line p) (imports db, st) lines).1 db;
       readers :=
         <[id := {| reader_path := p; reader_pending := [];
                    reader_locals :=
                      (foldl (on_line p) (imports db, st) lines).2 |}]> rs;
       started := k |}.
Proof.
  revert st db. induction lines as [|l lines IH]; intros st db.
  - cbn [length replicate foldl fst snd]. by rewrite set_imports_same.
  - cbn [length replicate foldl step]. unfold emit.
    cbn [readers server_db started]. rewrite lookup_insert_eq.
    cbn [reader_pending reader_path reader_locals].
    rewrite insert_insert_eq.
    destruct (on_line p (imports db, st) l) as [m1 st1] eqn:Hl.
    cbn [fst snd]. rewrite IH. by destruct db.
Qed.

Lemma scan_uninterrupted_aux (prebaked : list ImportInfo) (p : string)
    (lines : list string) (sv : server) :
  readers sv !! started sv = None →
  events_run prebaked
    (Call (ScanFile p lines)
     :: replicate (length lines) (Emit (started sv)) ++ [Emit (started sv)])
    sv
  = {| server_db := scan_whole p lines (server_db sv);
       readers := readers sv;
       started := S (started sv) |}.
Proof.
  intros Hfresh. unfold events_run. cbn [foldl step]. rewrite foldl_app.
  unfold scanFile. rewrite emit_lines. cbn [foldl step]. unfold emit.
  cbn [readers server_db started]. rewrite lookup_insert_eq.
  cbn [reader_pending reader_path reader_locals].
  rewrite delete_insert_id by done. reflexivity.
Qed.

(** X15.  A scan whose reader emits all its lines and closes before
    anything else runs does to the index what [scan_whole] does, and
    leaves the other readers as they are. *)
Theorem scan_uninterrupted (prebaked : list ImportInfo) (p : string)
    (lines : list string) (sv : server) :
  readers sv !! started sv = None →
  events_run prebaked
    (Call (ScanFile p lines)
     :: replicate (length lines) (Emit (started sv)) ++ [Emit (started sv)])
    sv
  = {| server_db := scan_whole p lines (server_db sv);
       readers := readers sv;
       started := S (started sv) |}.
Proof. apply scan_uninterrupted_aux. Qed.

Lemma scan_uninterrupted_witness :
  events_run sample_prebaked
    (Call (ScanFile "dom.d.ts" dom_file)
     :: replicate (length dom_file) (Emit (started new_server))
        ++ [Emit (started new_server)])
    new_server
  = {| server_db := scan_whole "dom.d.ts" dom_file (server_db new_server);
       readers := readers new_server;
       started := S (started new_server) |}.
Proof.
  apply (scan_uninterrupted sample_prebaked "dom.d.ts" dom_file new_server).
  reflexivity.
Defined.

(** ** What every interleaving keeps *)

Lemma on_line_effect (path l : string) (m : list (string * ImportInfo))
    (st : Scan.locals) :
  ((on_line path (m, st) l).1 = m
   ∧ Scan.found (on_line path (m, st) l).2 = Scan.found st)
  ∨ (∃ info, JsMap.get (Scan.namespace st) m = None
       ∧ (on_line path (m, st) l).1 = m ++ [(Scan.namespace st, info)]
       ∧ Scan.found (on_line path (m, st) l).2
         = Scan.found st ++ [Scan.namespace st]
       ∧ sourcepath info = path).
Proof.
  unfold on_line. destruct (match_declare l) as [ns|]; simpl.
  { left. by rewrite on_declare_found. }
  assert (Hexp : ∀ b,
    ((on_export path b (m, st)).1 = m
     ∧ Scan.found (on_export path b (m, st)).2 = Scan.found st)
    ∨ (∃ info, JsMap.get (Scan.namespace st) m = None
         ∧ (on_export path b (m, st)).1 = m ++ [(Scan.namespace st, info)]
         ∧ Scan.found (on_export path b (m, st)).2
           = Scan.found st ++ [Scan.namespace st]
         ∧ sourcepath info = path)).
  { intros b. unfold on_export.
    destruct (JsMap.has (Scan.namespace st) m) eqn:Hhas; [by left|].
    apply has_false in Hhas. right. eexists. split; [done|].
    simpl. by rewrite set_fresh. }
  destruct (truthy (Scan.namespace st)); simpl; [|by left].
  destruct (negb (indexOf l "export = alias" =? -1)); [apply Hexp|].
  destruct (negb (indexOf l "export default alias" =? -1));
    [apply Hexp|by left].
Qed.

Lemma owns_unique (db : ImportDB) (n p q : string) :
  owns db n p → owns db n q → p = q.
Proof. intros (i & Hi & <-) (j & Hj & <-). congruence. Qed.

Lemma owns_removeFile (p n q : string) (db : ImportDB) :
  owns db n q → n ∉ listed p db → owns (removeFile p db) n q.
Proof.
  intros (i & Hi & Hq) Hout. exists i. split; [|done].
  rewrite removeFile_get. by rewrite decide_False.
Qed.

Lemma listed_removeFile_inv (p q n : string) (db : ImportDB) :
  n ∈ listed q (removeFile p db) → q ≠ p ∧ n ∈ listed q db.
Proof.
  destruct (decide (q = p)) as [->|Hne].
  - rewrite removeFile_listed_same. by intros ?%elem_of_nil.
  - by rewrite removeFile_listed_other.
Qed.

Lemma server_inv_removeFile (p : string) (sv : server) :
  server_inv sv →
  server_inv {| server_db := removeFile p (server_db sv);
                readers := readers sv; started := started sv |}.
Proof.
  intros (Hrows & Hfound & Hdisj). split; [|split]; simpl.
  - intros q n [Hne Hin]%listed_removeFile_inv.
    apply owns_removeFile; [by apply Hrows|].
    intros Hp. apply Hne. eapply owns_unique; by apply Hrows.
  - intros id r n Hr Hn. destruct (Hfound id r n Hr Hn) as [Hown Hfree].
    split; [by apply owns_removeFile|].
    intros q [_ Hin]%listed_removeFile_inv. by apply (Hfree q).
  - exact Hdisj.
Qed.

Lemma server_inv_new_reader (id : nat) (p : string) (lines : list string)
    (sv : server) (k : nat) :
  server_inv sv →
  server_inv {| server_db := server_db sv;
                readers := <[id := {| reader_path := p;
                                      reader_pending := lines;
                                      reader_locals := Scan.init |}]>
                             (readers sv);
                started := k |}.
Proof.
  intros (Hrows & Hfound & Hdisj). split; [|split]; simpl; [done| |].
  - intros id' r n. rewrite lookup_insert. case_decide.
    + intros [= <-]. simpl. by intros ?%elem_of_nil.
    + apply Hfound.
  - intros id1 id2 r1 r2 n. rewrite !lookup_insert.
    repeat case_decide; subst.
    + done.
    + intros [= <-]. simpl. by intros _ ?%elem_of_nil.
    + intros _ [= <-]. simpl. by intros _ ?%elem_of_nil.
    + apply Hdisj.
Qed.

Lemma server_inv_same_maps (sv : server) (db : ImportDB) :
  imports db = imports (server_db sv) → files db = files (server_db sv) →
  server_inv sv →
  server_inv {| server_db := db; readers := readers sv;
                started := started sv |}.
Proof.
  intros Hi Hf (Hrows & Hfound & Hdisj).
  unfold server_inv, owns, listed in *. simpl. rewrite Hi, Hf. done.
Qed.

Lemma server_inv_emit (id : nat) (sv : server) :
  server_inv sv → server_inv (emit id sv).
Proof.
  intros Hinv. unfold emit.
  destruct (readers sv !! id) as [r|] eqn:Hr; [|done].
  destruct Hinv as (Hrows & Hfound & Hdisj).
  destruct (reader_pending r) as [|l ls] eqn:Hp.
  - (* close *)
    assert (Hlisted : ∀ q n,
      n ∈ listed q (on_close (reader_path r) (server_db sv)
                      (imports (server_db sv), reader_locals r)) →
      n ∈ listed q (server_db sv)
      ∨ (q = reader_path r ∧ n ∈ Scan.found (reader_locals r))).
    { intros q n. rewrite on_close_listed. simpl.
      case_decide as Hq; [|by left]. subst q.
      destruct (Scan.found (reader_locals r)); [by left|by right]. }
    assert (Howns : ∀ n q, owns (server_db sv) n q →
      owns (on_close (reader_path r) (server_db sv)
              (imports (server_db sv), reader_locals r)) n q).
    { intros n q. unfold owns. by rewrite on_close_imports. }
    split; [|split]; simpl.
    + intros q n [Hin|[-> Hin]]%Hlisted; apply Howns.
      * by apply Hrows.
      * by apply (Hfound id r n).
    + intros id' r' n [Hne Hr']%lookup_delete_Some Hn.
      destruct (Hfound id' r' n Hr' Hn) as [Hown Hfree].
      split; [by apply Howns|].
      intros q [Hin|[-> Hin]]%Hlisted; [by apply (Hfree q)|].
      apply Hne. symmetry. by apply (Hdisj id' id r' r n).
    + intros id1 id2 r1 r2 n [_ H1]%lookup_delete_Some
        [_ H2]%lookup_delete_Some. by apply Hdisj.
  - (* line *)
    pose proof (on_line_effect (reader_path r) l (imports (server_db sv))
                  (reader_locals r)) as Heff.
    cbv zeta.
    destruct (on_line (reader_path r)
                (imports (server_db sv), reader_locals r) l) as [m1 st1].
    cbn [fst snd] in *.
    destruct Heff as [[-> Hf]|(info & Hfresh & -> & Hf & Hsp)].
    + split; [|split]; simpl.
      * apply Hrows.
      * intros id' r' n. rewrite lookup_insert. case_decide.
        -- intros [= <-]. simpl. rewrite Hf. subst id'. by apply (Hfound id r).
        -- apply Hfound.
      * intros id1 id2 r1 r2 n. rewrite !lookup_insert.
        repeat case_decide; subst; try done.
        -- intros [= <-] H2. simpl. rewrite Hf. intros.
           eapply Hdisj; eauto.
        -- intros H1 [= <-]. simpl. rewrite Hf. intros.
           eapply Hdisj; eauto.
        -- apply Hdisj.
    + set (ns := Scan.namespace (reader_locals r)) in *.
      assert (Hkeep : ∀ n q, owns (server_db sv) n q →
                owns (set_imports (imports (server_db sv) ++ [(ns, info)])
                        (server_db sv)) n q).
      { intros n q (i & Hi & Hq). exists i. split; [|done].
        simpl. by rewrite get_app, Hi. }
      assert (Hnew : owns (set_imports (imports (server_db sv) ++ [(ns, info)])
                             (server_db sv)) ns (reader_path r)).
      { exists info. split; [|done]. simpl. rewrite get_app, Hfresh. simpl.
        by rewrite String.eqb_refl. }
      assert (Hnot : ∀ q, ns ∉ listed q (server_db sv)).
      { intros q (i & Hi & _)%Hrows. congruence. }
      assert (Hnone : ∀ id' r', readers sv !! id' = Some r' →
                ns ∉ Scan.found (reader_locals r')).
      { intros id' r' Hr' Hin.
        destruct (Hfound id' r' ns Hr' Hin) as [(i & Hi & _) _]. congruence. }
      split; [|split]; simpl.
      * intros q n Hin. apply Hkeep. by apply Hrows.
      * intros id' r' n. rewrite lookup_insert. case_decide.
        -- intros [= <-]. simpl. rewrite Hf. subst id'.
           intros [Hin| ->%list_elem_of_singleton]%elem_of_app.
           ++ destruct (Hfound id r n Hr Hin) as [Hown Hfree].
              split; [by apply Hkeep|done].
           ++ by split.
        -- intros Hr' Hin. destruct (Hfound id' r' n Hr' Hin) as [Hown Hfree].
           split; [by apply Hkeep|done].
      * intros id1 id2 r1 r2 n. rewrite !lookup_insert.
        repeat case_decide; subst; try done.
        -- intros [= <-] H2. simpl. rewrite Hf.
           intros [Hin| ->%list_elem_of_singleton]%elem_of_app Hin2.
           ++ eapply Hdisj; eauto.
           ++ by destruct (Hnone _ _ H2).
        -- intros H1 [= <-]. simpl. rewrite Hf.
           intros Hin1 [Hin| ->%list_elem_of_singleton]%elem_of_app.
           ++ eapply Hdisj; eauto.
           ++ by destruct (Hnone _ _ H1).
        -- apply Hdisj.
Qed.

Lemma server_inv_step (prebaked : list ImportInfo) (sv : server) (e : event) :
  server_inv sv → server_inv (step prebaked sv e).
Proof.
  intros H. destruct e as [[p lines|p|]|id]; simpl.
  - apply (server_inv_new_reader (started sv) p lines
             {| server_db := removeFile p (server_db sv);
                readers := readers sv; started := started sv |}).
    by apply server_inv_removeFile.
  - by apply server_inv_removeFile.
  - apply server_inv_same_maps; [| |done]; unfold getCompletions;
      by destruct (completions (server_db sv)).
  - by apply server_inv_emit.
Qed.

Lemma server_inv_run (prebaked : list ImportInfo) (es : list event) :
  server_inv (events_run prebaked es new_server).
Proof.
  unfold events_run. apply foldl_preserves.
  - split; [|split]; simpl.
    + intros p n. unfold listed. simpl. rewrite lookup_empty.
      by intros ?%elem_of_nil.
    + intros id r n. by rewrite lookup_empty.
    + intros id id' r r' n. by rewrite lookup_empty.
  - intros sv e. apply server_inv_step.
Qed.

(** X16.  Whatever the order in which calls and the events of the readers
    at work run, a namespace that the reverse mapping lists for a path has
    an entry in the forward map with that path as [sourcepath]. *)
Theorem interleaved_rows_sound (prebaked : list ImportInfo)
    (es : list event) (p n : string) :
  n ∈ listed p (server_db (events_run prebaked es new_server)) →
  ∃ i, JsMap.get n (imports (server_db (events_run prebaked es new_server)))
       = Some i
     ∧ sourcepath i = p.
Proof.
  destruct (server_inv_run prebaked es) as (Hrows & _). apply Hrows.
Qed.

Lemma interleaved_rows_sound_witness :
  ∃ i, JsMap.get "goog.dom"
         (imports (server_db
                     (events_run sample_prebaked overlapping_scans new_server)))
       = Some i
     ∧ sourcepath i = "both.d.ts".
Proof.
  apply (interleaved_rows_sound sample_prebaked overlapping_scans
           "both.d.ts" "goog.dom").
  replace (listed "both.d.ts"
             (server_db
                (events_run sample_prebaked overlapping_scans new_server)))
    with ["goog.dom"] by (vm_compute; reflexivity).
  by apply list_elem_of_singleton.
Defined.

Lemma no_blacklist_on_line (path l : string)
    (m : list (string * ImportInfo)) (st : Scan.locals) :
  (∀ n, is_Some (JsMap.get n m) → blacklisted n = false) →
  (truthy (Scan.namespace st) = true →
   blacklisted (Scan.namespace st) = false) →
  (∀ n, is_Some (JsMap.get n (on_line path (m, st) l).1) →
        blacklisted n = false)
  ∧ (truthy (Scan.namespace (on_line path (m, st) l).2) = true →
     blacklisted (Scan.namespace (on_line path (m, st) l).2) = false).
Proof.
  intros Hm Hst. unfold on_line. destruct (match_declare l) as [ns|]; simpl.
  { split; [done|].
    destruct (on_declare_namespace ns st) as [->|[-> Hb]]; [done|by intros _]. }
  assert (Hexp : ∀ b, truthy (Scan.namespace st) = true →
    (∀ n, is_Some (JsMap.get n (on_export path b (m, st)).1) →
          blacklisted n = false)
    ∧ (truthy (Scan.namespace (on_export path b (m, st)).2) = true →
       blacklisted (Scan.namespace (on_export path b (m, st)).2) = false)).
  { intros b Ht. unfold on_export.
    destruct (JsMap.has (Scan.namespace st) m) eqn:Hhas; [done|].
    simpl. split; [|done]. intros n. rewrite get_set.
    case_decide as Hn; [subst n; intros _; by apply Hst|apply Hm]. }
  destruct (truthy (Scan.namespace st)) eqn:Ht; simpl;
    [|split; [exact Hm|by rewrite Ht]].
  destruct (negb (indexOf l "export = alias" =? -1)); [by apply Hexp|].
  destruct (negb (indexOf l "export default alias" =? -1));
    [by apply Hexp|].
  split; [exact Hm|by intros _; apply Hst].
Qed.

Lemma server_entries_ok_step (prebaked : list ImportInfo) (sv : server)
    (e : event) :
  server_entries_ok sv → server_entries_ok (step prebaked sv e).
Proof.
  intros (Hall & Hbl & Hrs).
  assert (Hrem : ∀ p, Forall entry_ok (imports (removeFile p (server_db sv)))).
  { intros p. rewrite removeFile_imports_filter. apply Forall_forall.
    intros x [_ Hx]%list_elem_of_filter. rewrite Forall_forall in Hall.
    by apply Hall. }
  destruct e as [[p lines|p|]|id]; simpl.
  - unfold scanFile. split; [apply Hrem|].
    split; [by apply no_blacklisted_key_removeFile|].
    intros id r. simpl. rewrite lookup_insert. case_decide; [|apply Hrs].
    intros [= <-]. by split.
  - split; [apply Hrem|].
    split; [by apply no_blacklisted_key_removeFile|done].
  - unfold getCompletions, server_entries_ok, no_blacklisted_key.
    by destruct (completions (server_db sv)).
  - unfold emit. destruct (readers sv !! id) as [r|] eqn:Hr; [|done].
    destruct (Hrs id r Hr) as [Hact Hnb].
    destruct (reader_pending r) as [|l ls].
    + split; [simpl; by rewrite on_close_imports|]. split.
      * unfold no_blacklisted_key. simpl. by rewrite on_close_imports.
      * intros id' r'. simpl. intros [_ Hr']%lookup_delete_Some.
        by apply (Hrs id').
    + pose proof (entries_ok_on_line (reader_path r) l
                    (imports (server_db sv), reader_locals r)
                    (conj Hall Hact)) as [Hall' Hact'].
      pose proof (no_blacklist_on_line (reader_path r) l
                    (imports (server_db sv)) (reader_locals r) Hbl Hnb)
        as [Hbl' Hnb'].
      split; [exact Hall'|]. split; [exact Hbl'|].
      intros id' r'. simpl. rewrite lookup_insert.
      case_decide; [|apply Hrs]. intros [= <-]. by split.
Qed.

Lemma server_entries_ok_run (prebaked : list ImportInfo) (es : list event) :
  server_entries_ok (events_run prebaked es new_server).
Proof.
  unfold events_run. apply foldl_preserves.
  - split; [apply Forall_nil_2|]. split.
    + by intros n [i Hi].
    + intros id r. simpl. by rewrite lookup_empty.
  - intros sv e. apply server_entries_ok_step.
Qed.

(** X17.  Whatever the order in which calls and the events of the readers
    at work run, the entry stored under a key [n] carries [n] as its
    [namespace]; [n] is not empty, not blacklisted and not in the deprecated
    set; and its [name] has no dot and is [n] itself or what follows the
    last dot of [n]. *)
Theorem interleaved_entries_well_formed (prebaked : list ImportInfo)
    (es : list event) (n : string) (i : ImportInfo) :
  JsMap.get n (imports (server_db (events_run prebaked es new_server)))
  = Some i →
  namespace i = n ∧ n ≠ "" ∧ (n ∉ deprecated) ∧ blacklisted n = false
  ∧ indexOf (name i) "." = -1
  ∧ (n = name i ∨ ∃ pre, n = pre +:+ "." +:+ name i).
Proof.
  intros Hget.
  destruct (server_entries_ok_run prebaked es) as (Hall & Hbl & _).
  assert (Hb : blacklisted n = false) by (apply Hbl; by exists i).
  apply get_Some_elem_of in Hget. rewrite Forall_forall in Hall.
  destruct (Hall _ Hget) as (Hns & Hname & Hne & Hdep). simpl in *.
  destruct (last_segment_spec n) as [Hdot Hend].
  rewrite Hname. repeat split; try done.
  by apply indexOf_from_absent.
Qed.

Lemma interleaved_entries_well_formed_witness :
  namespace {| name := "EventTarget"; namespace := "goog.events.EventTarget";
               module := false; sourcepath := "both.d.ts" |}
  = "goog.events.EventTarget"
  ∧ "goog.events.EventTarget" ≠ ""
  ∧ ("goog.events.EventTarget" ∉ deprecated)
  ∧ blacklisted "goog.events.EventTarget" = false
  ∧ indexOf "EventTarget" "." = -1
  ∧ ("goog.events.EventTarget" = "EventTarget"
     ∨ ∃ pre, "goog.events.EventTarget" = pre +:+ "." +:+ "EventTarget").
Proof.
  apply (interleaved_entries_well_formed sample_prebaked overlapping_scans
           "goog.events.EventTarget"
           {| name := "EventTarget"; namespace := "goog.events.EventTarget";
              module := false; sourcepath := "both.d.ts" |}).
  vm_compute. reflexivity.
Defined.

(** ** The cache when no reader is at work *)

Lemma ids_fresh_step (prebaked : list ImportInfo) (sv : server) (e : event) :
  ids_fresh sv → ids_fresh (step prebaked sv e).
Proof.
  intros H. destruct e as [[p lines|p|]|id]; simpl; try done.
  - unfold scanFile. intros id r. simpl. rewrite lookup_insert.
    case_decide.
    + intros _. lia.
    + intros Hr%H. lia.
  - unfold emit. destruct (readers sv !! id) as [r|] eqn:Hr; [|done].
    destruct (reader_pending r) as [|l ls]; intros id' r'; simpl.
    + intros [_ Hr']%lookup_delete_Some. by apply (H id' r').
    + rewrite lookup_insert. case_decide; [|apply H].
      subst id'. intros _. by apply (H id r).
Qed.

Lemma cache_idle_step (prebaked : list ImportInfo) (sv : server) (e : event) :
  ids_fresh sv → cache_idle prebaked sv → cache_idle prebaked (step prebaked sv e).
Proof.
  intros Hfresh Hidle. destruct e as [[p lines|p|]|id]; simpl.
  - unfold scanFile. intros Hnone. simpl in *.
    apply cache_coherent_removeFile, Hidle.
    intros id r Hr. apply (Hnone id). rewrite lookup_insert_ne; [done|].
    apply Hfresh in Hr. lia.
  - intros Hnone. simpl in *. by apply cache_coherent_removeFile, Hidle.
  - intros Hnone. simpl in *. by apply cache_coherent_getCompletions, Hidle.
  - unfold emit. destruct (readers sv !! id) as [r|] eqn:Hr; [|done].
    destruct (reader_pending r) as [|l ls].
    + intros Hnone. simpl in *. unfold on_close. simpl.
      destruct (Scan.found (reader_locals r)) as [|n ns] eqn:Hf; simpl.
      * assert (Hc : cache_coherent prebaked (server_db sv)).
        { apply Hidle. intros id' r' Hr'.
          destruct (decide (id' = id)) as [->|Hne]; [congruence|].
          apply (Hnone id'). by rewrite lookup_delete_ne. }
        intros a Ha. by apply Hc.
      * by intros a.
    + pose proof (on_line_effect (reader_path r) l (imports (server_db sv))
                    (reader_locals r)) as Heff.
      cbv zeta.
      destruct (on_line (reader_path r)
                  (imports (server_db sv), reader_locals r) l) as [m1 st1].
      cbn [fst snd] in *. intros Hnone. simpl in *.
      pose proof (Hnone id _ (lookup_insert_eq _ _ _)) as Hst1. simpl in Hst1.
      destruct Heff as [[-> Hf]|(info & _ & _ & Hf & _)].
      * rewrite set_imports_same. apply Hidle. intros id' r' Hr'.
        destruct (decide (id' = id)) as [->|Hne]; [congruence|].
        apply (Hnone id'). by rewrite lookup_insert_ne.
      * rewrite Hst1 in Hf. by destruct (Scan.found (reader_locals r)).
Qed.

Lemma cache_idle_run (prebaked : list ImportInfo) (es : list event) :
  ids_fresh (events_run prebaked es new_server)
  ∧ cache_idle prebaked (events_run prebaked es new_server).
Proof.
  unfold events_run.
  apply (foldl_preserves (λ sv, ids_fresh sv ∧ cache_idle prebaked sv)).
  - split.
    + intros id r. simpl. by rewrite lookup_empty.
    + intros _ a. done.
  - intros sv e [H1 H2]. split;
      [by apply ids_fresh_step|by apply cache_idle_step].
Qed.

(** X18.  Whatever the order in which calls and the events of the readers
    ran, once no reader is at work [getCompletions] returns the suggestions
    of the index as it is: one per entry, and one per prebaked entry when
    the index has no key [goog.ui.Component]. *)
Theorem idle_completions_current (prebaked : list ImportInfo)
    (es : list event) :
  readers (events_run prebaked es new_server) = ∅ →
  array_items
    (getCompletions prebaked
       (server_db (events_run prebaked es new_server))).1
  = completion_item
    <$> completion_sources prebaked
          (imports (server_db (events_run prebaked es new_server))).
Proof.
  intros Hidle. apply getCompletions_items.
  destruct (cache_idle_run prebaked es) as [_ H]. apply H.
  intros id r. by rewrite Hidle, lookup_empty.
Qed.

Lemma idle_completions_current_witness :
  array_items
    (getCompletions sample_prebaked
       (server_db (events_run sample_prebaked overlapping_scans new_server))).1
  = completion_item
    <$> completion_sources sample_prebaked
          (imports (server_db
                      (events_run sample_prebaked overlapping_scans
                         new_server))).
Proof.
  apply (idle_completions_current sample_prebaked overlapping_scans).
  vm_compute. reflexivity.
Defined.

(** * [onDidChangeWatchedFiles] *)

Lemma handle_changes_calls (prebaked : list ImportInfo)
    (realpathSync : string → option string) (content : string → list string)
    (changes : list FileEvent) (processed : gset string) (sv : server) :
  ∃ cs,
    (handle_changes realpathSync content changes processed sv).1
    = events_run prebaked (Call <$> cs) sv
    ∧ NoDup (call_path <$> cs)
    ∧ (∀ c, c ∈ cs →
         (call_path c ∉ processed)
         ∧ ∃ pre ch post,
             changes = pre ++ ch :: post
             ∧ (∀ ch', ch' ∈ pre → ¬ resolves realpathSync ch' (call_path c))
             ∧ resolves realpathSync ch (call_path c)
             ∧ c = if type ch =? 3 then RemoveFile (call_path c)
                   else ScanFile (call_path c) (content (call_path c)))
    ∧ ((handle_changes realpathSync content changes processed sv).2 = true →
       ∀ ch p, ch ∈ changes → resolves realpathSync ch p →
               p ∈ processed ∨ p ∈ call_path <$> cs).
Proof.
  revert processed sv. induction changes as [|ch rest IH]; intros processed sv.
  { exists []. split; [done|]. split; [apply NoDup_nil_2|].
    split; [by intros c ?%elem_of_nil|]. by intros _ ch p ?%elem_of_nil. }
  cbn [handle_changes].
  assert (Hskip : ∀ processed' sv',
    (∀ p, resolves realpathSync ch p → p ∈ processed') →
    ∃ cs,
      (handle_changes realpathSync content rest processed' sv').1
      = events_run prebaked (Call <$> cs) sv'
      ∧ NoDup (call_path <$> cs)
      ∧ (∀ c, c ∈ cs →
           (call_path c ∉ processed')
           ∧ ∃ pre ch' post,
               ch :: rest = pre ++ ch' :: post
               ∧ (∀ ch'', ch'' ∈ pre →
                          ¬ resolves realpathSync ch'' (call_path c))
               ∧ resolves realpathSync ch' (call_path c)
               ∧ c = if type ch' =? 3 then RemoveFile (call_path c)
                     else ScanFile (call_path c) (content (call_path c)))
      ∧ ((handle_changes realpathSync content rest processed' sv').2 = true →
         ∀ ch' p, ch' ∈ ch :: rest → resolves realpathSync ch' p →
                  p ∈ processed' ∨ p ∈ call_path <$> cs)).
  { intros processed' sv' Hch.
    destruct (IH processed' sv') as (cs & Hrun & Hnd & Hcs & Hall).
    exists cs. split; [done|]. split; [done|]. split.
    - intros c Hc.
      destruct (Hcs c Hc) as (Hp & pre & ch' & post & -> & Hpre & Hres).
      split; [done|]. exists (ch :: pre), ch', post. split; [done|].
      split; [|done]. intros ch'' [->|Hin]%elem_of_cons.
      + intros Hr. by apply Hp, Hch.
      + by apply Hpre.
    - intros Hok ch' p [->|Hin]%elem_of_cons Hres.
      + left. by apply Hch.
      + by apply (Hall Hok ch' p). }
  destruct (startsWith (uri ch) "file://") eqn:Hfile.
  2:{ destruct (Hskip processed sv) as (cs & H1 & H2 & H3 & H4).
      - intros p [Hf _]. congruence.
      - by exists cs. }
  destruct (realpathSync (substr (uri ch) 7)) as [path|] eqn:Hreal.
  2:{ exists []. split; [done|]. split; [apply NoDup_nil_2|].
      split; [by intros c ?%elem_of_nil|]. intros Hok. discriminate Hok. }
  destruct (bool_decide (path ∈ processed)) eqn:Hproc.
  { apply bool_decide_eq_true in Hproc.
    destruct (Hskip processed sv) as (cs & H1 & H2 & H3 & H4).
    - intros p [_ Hp]. congruence.
    - by exists cs. }
  apply bool_decide_eq_false in Hproc.
  set (c0 := if type ch =? 3 then RemoveFile path
             else ScanFile path (content path)).
  assert (Hc0 : call_path c0 = path) by (unfold c0; by destruct (type ch =? 3)).
  destruct (Hskip ({[path]} ∪ processed) (step prebaked sv (Call c0)))
    as (cs & H1 & H2 & H3 & H4).
  { intros p [_ Hp]. rewrite Hreal in Hp. injection Hp as <-.
    apply elem_of_union. left. by apply elem_of_singleton. }
  exists (c0 :: cs). split; [|split; [|split]].
  - transitivity (events_run prebaked (Call <$> cs)
                    (step prebaked sv (Call c0))); [|reflexivity].
    rewrite <-H1. unfold c0. by destruct (type ch =? 3).
  - cbn [fmap list_fmap]. apply NoDup_cons_2; [|done]. rewrite Hc0.
    intros (c & Hc & Hin)%list_elem_of_fmap.
    destruct (H3 c Hin) as [Hout _]. apply Hout. rewrite <-Hc.
    apply elem_of_union. left. by apply elem_of_singleton.
  - intros c [->|Hin]%elem_of_cons.
    + rewrite Hc0. split; [done|]. exists [], ch, rest.
      split; [done|]. split; [by intros ch' ?%elem_of_nil|]. by split.
    + destruct (H3 c Hin) as [Hout Hex]. split; [|done].
      intros Hp. apply Hout. apply elem_of_union. by right.
  - intros Hok ch' p Hin Hres.
    assert (Hok' : (handle_changes realpathSync content rest
                      ({[path]} ∪ processed)
                      (step prebaked sv (Call c0))).2 = true).
    { rewrite <-Hok. unfold c0. by destruct (type ch =? 3). }
    destruct (H4 Hok' ch' p Hin Hres) as [[Hp|Hp]%elem_of_union|Hp].
    + apply elem_of_singleton in Hp as ->. right. cbn [fmap list_fmap].
      rewrite Hc0. apply elem_of_cons. by left.
    + by left.
    + right. cbn [fmap list_fmap]. apply elem_of_cons. by right.
Qed.

Lemma handle_changes_throw (realpathSync : string → option string)
    (content : string → list string) (pre : list FileEvent) (ch : FileEvent)
    (post : list FileEvent) (processed : gset string) (sv : server) :
  (∀ ch', ch' ∈ pre → ¬ throws realpathSync ch') → throws realpathSync ch →
  handle_changes realpathSync content (pre ++ ch :: post) processed sv
  = ((handle_changes realpathSync content pre processed sv).1, false).
Proof.
  revert processed sv. induction pre as [|c pre IH]; intros processed sv Hpre.
  - intros [Hf Hr]. cbn [app handle_changes]. by rewrite Hf, Hr.
  - intros Hth.
    assert (Hpre' : ∀ ch', ch' ∈ pre → ¬ throws realpathSync ch').
    { intros ch' Hin. apply Hpre. apply elem_of_cons. by right. }
    assert (Hc : ¬ throws realpathSync c).
    { apply Hpre. apply elem_of_cons. by left. }
    cbn [app handle_changes].
    destruct (startsWith (uri c) "file://") eqn:Hf; [|by apply IH].
    destruct (realpathSync (substr (uri c) 7)) as [path|] eqn:Hr.
    + destruct (bool_decide (path ∈ processed)); by apply IH.
    + by destruct Hc.
Qed.

Lemma handle_changes_flag (realpathSync : string → option string)
    (content : string → list string) (changes : list FileEvent)
    (processed : gset string) (sv : server) :
  (handle_changes realpathSync content changes processed sv).2 = true
  ↔ ∀ ch, ch ∈ changes → ¬ throws realpathSync ch.
Proof.
  revert processed sv. induction changes as [|c rest IH]; intros processed sv.
  { split; [|done]. by intros _ ch ?%elem_of_nil. }
  cbn [handle_changes].
  assert (Hcons : ¬ throws realpathSync c →
    ∀ processed' sv',
      (handle_changes realpathSync content rest processed' sv').2 = true
      ↔ ∀ ch, ch ∈ c :: rest → ¬ throws realpathSync ch).
  { intros Hc processed' sv'. rewrite IH. split.
    - intros H ch [->|Hin]%elem_of_cons; [done|by apply H].
    - intros H ch Hin. apply H. apply elem_of_cons. by right. }
  destruct (startsWith (uri c) "file://") eqn:Hf.
  2:{ apply Hcons. intros [Hf' _]. congruence. }
  destruct (realpathSync (substr (uri c) 7)) as [path|] eqn:Hr.
  - assert (Hc : ¬ throws realpathSync c) by (intros [_ Hr']; congruence).
    destruct (bool_decide (path ∈ processed)); by apply Hcons.
  - split; [done|]. intros H. destruct (H c); [|done].
    apply elem_of_cons. by left.
Qed.

(** X19.  [onDidChangeWatchedFiles] makes one call per file the
    notification names, decided by the first change that names the file:
    [removeFile] when that change is a deletion, [scanFile] otherwise; later
    changes of the same file and changes whose URI is no file URI are
    passed over.  The handler runs to its end exactly when [realpathSync]
    throws on no change; when it throws, the handler has done what it does
    on the changes before the first one it throws on, and the changes after
    that one make no call. *)
Theorem watched_files_calls (prebaked : list ImportInfo)
    (realpathSync : string → option string) (content : string → list string)
    (changes : list FileEvent) (sv : server) :
  (∃ cs,
     (onDidChangeWatchedFiles realpathSync content changes sv).1
     = events_run prebaked (Call <$> cs) sv
     ∧ NoDup (call_path <$> cs)
     ∧ (∀ c, c ∈ cs →
          ∃ pre ch post,
            changes = pre ++ ch :: post
            ∧ (∀ ch', ch' ∈ pre → ¬ resolves realpathSync ch' (call_path c))
            ∧ resolves realpathSync ch (call_path c)
            ∧ c = if type ch =? 3 then RemoveFile (call_path c)
                  else ScanFile (call_path c) (content (call_path c)))
     ∧ ((onDidChangeWatchedFiles realpathSync content changes sv).2 = true →
        ∀ ch p, ch ∈ changes → resolves realpathSync ch p →
                p ∈ call_path <$> cs))
  ∧ ((onDidChangeWatchedFiles realpathSync content changes sv).2 = true
     ↔ ∀ ch, ch ∈ changes → ¬ throws realpathSync ch)
  ∧ (∀ pre ch post,
       changes = pre ++ ch :: post →
       (∀ ch', ch' ∈ pre → ¬ throws realpathSync ch') →
       throws realpathSync ch →
       onDidChangeWatchedFiles realpathSync content changes sv
       = ((onDidChangeWatchedFiles realpathSync content pre sv).1, false)).
Proof.
  unfold onDidChangeWatchedFiles. split; [|split].
  - destruct (handle_changes_calls prebaked realpathSync content changes ∅ sv)
      as (cs & H1 & H2 & H3 & H4).
    exists cs. split; [done|]. split; [done|]. split.
    + intros c Hc. by destruct (H3 c Hc) as [_ ?].
    + intros Hok ch p Hin Hres.
      destruct (H4 Hok ch p Hin Hres) as [Hp|Hp]; [|done].
      by apply elem_of_empty in Hp.
  - apply handle_changes_flag.
  - intros pre ch post -> Hpre Hth. by apply handle_changes_throw.
Qed.

(** A notification whose second change names a path [realpathSync] throws
    on: the deletion before it is carried out, the scan after it is not
    started. *)
Lemma watched_files_throw_sample :
  (onDidChangeWatchedFiles
     (λ p, if String.eqb p "/w/gone.d.ts" then None else Some p)
     sample_content
     [ {| uri := "file:///w/dom.d.ts"; type := 3 |};
       {| uri := "file:///w/gone.d.ts"; type := 1 |};
       {| uri := "file:///w/ui.d.ts"; type := 2 |} ]
     two_files_server)
  = ({| server_db := removeFile "/w/dom.d.ts" (server_db two_files_server);
        readers := ∅; started := 0 |}, false).
Proof. vm_compute. reflexivity. Qed.

Lemma handle_changes_rows (realpathSync : string → option string)
    (content : string → list string) (changes : list FileEvent)
    (processed : gset string) (sv : server) :
  (∀ p, p ∈ processed → files (server_db sv) !! p = None) →
  (∀ n i,
     JsMap.get n
       (imports (server_db
          (handle_changes realpathSync content changes processed sv).1))
     = Some i →
     JsMap.get n (imports (server_db sv)) = Some i)
  ∧ ((handle_changes realpathSync content changes processed sv).2 = true →
     (∀ p, p ∈ processed →
        files (server_db
                 (handle_changes realpathSync content changes processed sv).1)
        !! p = None)
     ∧ ∀ ch p, ch ∈ changes → resolves realpathSync ch p →
         files (server_db
                  (handle_changes realpathSync content changes processed sv).1)
         !! p = None).
Proof.
  revert processed sv. induction changes as [|ch rest IH];
    intros processed sv Hproc.
  { split; [done|]. intros _. split; [done|]. by intros ch p ?%elem_of_nil. }
  cbn [handle_changes].
  destruct (startsWith (uri ch) "file://") eqn:Hfile.
  2:{ destruct (IH processed sv Hproc) as [Hshrink Hrows].
      split; [done|]. intros Hok. destruct (Hrows Hok) as [Hp Hall].
      split; [done|]. intros ch' p [->|Hin]%elem_of_cons [Hf Hr];
        [congruence|by apply (Hall ch' p)]. }
  destruct (realpathSync (substr (uri ch) 7)) as [path|] eqn:Hreal;
    [|by split].
  destruct (bool_decide (path ∈ processed)) eqn:Hin.
  { apply bool_decide_eq_true in Hin.
    destruct (IH processed sv Hproc) as [Hshrink Hrows].
    split; [done|]. intros Hok. destruct (Hrows Hok) as [Hp Hall].
    split; [done|]. intros ch' p [->|Hin']%elem_of_cons [Hf Hr].
    - rewrite Hreal in Hr. injection Hr as <-. by apply Hp.
    - by apply (Hall ch' p). }
  set (sv' := if type ch =? 3 then removeFile_call path sv
              else scanFile path (content path) sv).
  assert (Hdb : server_db sv' = removeFile path (server_db sv))
    by (unfold sv'; by destruct (type ch =? 3)).
  destruct (IH ({[path]} ∪ processed) sv') as [Hshrink Hrows].
  { intros p Hp. rewrite Hdb, removeFile_files.
    apply elem_of_union in Hp as [->%elem_of_singleton|Hp].
    - apply lookup_delete_eq.
    - apply lookup_delete_None. right. by apply Hproc. }
  split.
  - intros n i Hget%Hshrink. rewrite Hdb, removeFile_get in Hget.
    by destruct (decide (n ∈ listed path (server_db sv))).
  - intros Hok. destruct (Hrows Hok) as [Hp Hall]. split.
    + intros p Hpin. apply Hp. apply elem_of_union. by right.
    + intros ch' p [->|Hin']%elem_of_cons [Hf Hr].
      * rewrite Hreal in Hr. injection Hr as <-. apply Hp.
        apply elem_of_union. left. by apply elem_of_singleton.
      * by apply (Hall ch' p).
Qed.

(** X20.  By the time [onDidChangeWatchedFiles] returns it has added no
    entry to the forward map, and, when it ran to its end, no file the
    notification names has a row in the reverse mapping: what a changed
    file declares comes back only as its reader emits. *)
Theorem watched_files_rows_cleared
    (realpathSync : string → option string) (content : string → list string)
    (changes : list FileEvent) (sv : server) :
  (∀ n i,
     JsMap.get n
       (imports (server_db
          (onDidChangeWatchedFiles realpathSync content changes sv).1))
     = Some i →
     JsMap.get n (imports (server_db sv)) = Some i)
  ∧ ((onDidChangeWatchedFiles realpathSync content changes sv).2 = true →
     ∀ ch p, ch ∈ changes → resolves realpathSync ch p →
       files (server_db
                (onDidChangeWatchedFiles realpathSync content changes sv).1)
       !! p = None).
Proof.
  unfold onDidChangeWatchedFiles.
  destruct (handle_changes_rows realpathSync content changes ∅ sv)
    as [Hshrink Hrows]; [by intros p ?%elem_of_empty|].
  split; [done|]. intros Hok. by destruct (Hrows Hok).
Qed.

(** A notification with a deletion and a later creation of one file, a URI
    that is no file URI, and a change of a second file: the first file is
    removed only, and one reader starts, for the second file. *)
Lemma watched_files_sample :
  reader_path
  <$> (map_to_list
         (readers (onDidChangeWatchedFiles Some sample_content sample_changes
                     two_files_server).1)).*2
  = ["/w/ui.d.ts"]
  ∧ (onDidChangeWatchedFiles Some sample_content sample_changes
       two_files_server).2 = true.
Proof. split; vm_compute; reflexivity. Qed.

(** ** Calls that wait for the reader of their path *)

Lemma paced_inv_removeFile (p : string) (sv : server) :
  idle_on p sv → paced_inv sv → paced_inv (removeFile_call p sv).
Proof.
  intros Hidle (Hb & Hc1 & Hc2). split; [|split]; simpl.
  - intros n i. rewrite removeFile_get.
    destruct (decide (n ∈ listed p (server_db sv))) as [|Hout]; [done|].
    intros [Hin|Hr]%Hb; [|by right]. left.
    rewrite removeFile_listed_other; [done|]. by intros <-.
  - exact Hc1.
  - intros id r Hr. rewrite removeFile_files. apply lookup_delete_None.
    right. by apply (Hc2 id).
Qed.

Lemma paced_inv_scanFile (p : string) (lines : list string)
    (sv : server) :
  ids_fresh sv → idle_on p sv → paced_inv sv →
  paced_inv (scanFile p lines sv).
Proof.
  intros Hfresh Hidle Hinv.
  destruct (paced_inv_removeFile p sv Hidle Hinv) as (Hb & Hc1 & Hc2).
  simpl in *.
  assert (Hnew : readers sv !! started sv = None).
  { destruct (readers sv !! started sv) as [r|] eqn:Hr; [|done].
    apply Hfresh in Hr. lia. }
  unfold scanFile. split; [|split]; simpl.
  - intros n i [Hin|(id & r & Hr & Hp & Hn)]%Hb; [by left|]. right.
    exists id, r. split; [|done]. rewrite lookup_insert_ne; [done|].
    intros <-. congruence.
  - intros id id' r r'. rewrite !lookup_insert.
    repeat case_decide; subst; try done.
    + intros [= <-] Hr' Hp. simpl in Hp. by destruct (Hidle _ _ Hr').
    + intros Hr [= <-] Hp. simpl in Hp. by destruct (Hidle _ _ Hr).
    + apply Hc1.
  - intros id r. rewrite lookup_insert. case_decide.
    + intros [= <-]. simpl. rewrite removeFile_files. apply lookup_delete_eq.
    + apply Hc2.
Qed.

Lemma paced_inv_emit (id : nat) (sv : server) :
  paced_inv sv → paced_inv (emit id sv).
Proof.
  intros Hinv. unfold emit.
  destruct (readers sv !! id) as [r|] eqn:Hr; [|done].
  destruct Hinv as (Hb & Hc1 & Hc2).
  destruct (reader_pending r) as [|l ls] eqn:Hp.
  - (* close *)
    pose proof (Hc2 id r Hr) as Hrow.
    assert (Hempty : listed (reader_path r) (server_db sv) = [])
      by (unfold listed; by rewrite Hrow).
    split; [|split]; simpl.
    + intros n i. rewrite on_close_imports. simpl.
      intros [Hin|(id' & r' & Hr' & Hp' & Hn)]%Hb.
      * left. rewrite on_close_listed. simpl.
        case_decide as Hq; [|done]. rewrite Hq, Hempty in Hin.
        by apply elem_of_nil in Hin.
      * destruct (decide (id' = id)) as [->|Hne].
        -- left. rewrite Hr in Hr'. injection Hr' as <-.
           rewrite on_close_listed. simpl. rewrite decide_True by done.
           by destruct (Scan.found (reader_locals r));
             [apply elem_of_nil in Hn|].
        -- right. exists id', r'. by rewrite lookup_delete_ne.
    + intros id1 id2 r1 r2 [_ H1]%lookup_delete_Some [_ H2]%lookup_delete_Some.
      by apply Hc1.
    + intros id' r' [Hne Hr']%lookup_delete_Some.
      assert (Hpath : reader_path r' ≠ reader_path r).
      { intros Heq. apply Hne. by apply (Hc1 id id' r r'). }
      unfold on_close. simpl.
      destruct (Scan.found (reader_locals r)); simpl; [by apply (Hc2 id')|].
      rewrite lookup_insert_ne by done. by apply (Hc2 id').
  - (* line *)
    pose proof (on_line_effect (reader_path r) l (imports (server_db sv))
                  (reader_locals r)) as Heff.
    cbv zeta.
    destruct (on_line (reader_path r)
                (imports (server_db sv), reader_locals r) l) as [m1 st1].
    cbn [fst snd] in *.
    assert (Hkeep : ∀ n i,
      (∃ id' r', readers sv !! id' = Some r' ∧ reader_path r' = sourcepath i
                 ∧ n ∈ Scan.found (reader_locals r')) →
      (∀ k, k ∈ Scan.found (reader_locals r) → k ∈ Scan.found st1) →
      ∃ id' r', <[id := {| reader_path := reader_path r;
                           reader_pending := ls;
                           reader_locals := st1 |}]> (readers sv) !! id'
                = Some r'
                ∧ reader_path r' = sourcepath i
                ∧ n ∈ Scan.found (reader_locals r')).
    { intros n i (id' & r' & Hr' & Hp' & Hn) Hsub.
      destruct (decide (id' = id)) as [->|Hne].
      - rewrite Hr in Hr'. injection Hr' as <-. eexists id, _.
        rewrite lookup_insert_eq. split; [done|]. simpl. split; [done|].
        by apply Hsub.
      - exists id', r'. by rewrite lookup_insert_ne. }
    assert (Hc1' : ∀ id1 id2 r1 r2,
      <[id := {| reader_path := reader_path r; reader_pending := ls;
                 reader_locals := st1 |}]> (readers sv) !! id1 = Some r1 →
      <[id := {| reader_path := reader_path r; reader_pending := ls;
                 reader_locals := st1 |}]> (readers sv) !! id2 = Some r2 →
      reader_path r1 = reader_path r2 → id1 = id2).
    { intros id1 id2 r1 r2. rewrite !lookup_insert.
      repeat case_decide; subst; try done.
      - intros [= <-] H2 Hpq. simpl in Hpq. eapply Hc1; eauto.
      - intros H1 [= <-] Hpq. simpl in Hpq. eapply Hc1; eauto.
      - apply Hc1. }
    assert (Hc2' : ∀ id' r',
      <[id := {| reader_path := reader_path r; reader_pending := ls;
                 reader_locals := st1 |}]> (readers sv) !! id' = Some r' →
      files (server_db sv) !! reader_path r' = None).
    { intros id' r'. rewrite lookup_insert. case_decide; [|apply Hc2].
      intros [= <-]. simpl. by apply (Hc2 id). }
    destruct Heff as [[-> Hf]|(info & Hfresh & -> & Hf & Hsp)].
    + split; [|split]; simpl; [|done..].
      intros n i [Hin|Hex]%Hb; [by left|]. right.
      apply Hkeep; [done|]. intros k. by rewrite Hf.
    + split; [|split]; simpl; [|done..].
      intros n i. rewrite get_app.
      destruct (JsMap.get n (imports (server_db sv))) as [j|] eqn:Hj.
      * intros [= <-]. destruct (Hb n j Hj) as [Hin|Hex]; [by left|]. right.
        apply Hkeep; [done|]. intros k Hk. rewrite Hf. apply elem_of_app.
        by left.
      * simpl. destruct (String.eqb_spec n (Scan.namespace (reader_locals r)))
          as [->|]; [|done].
        intros [= <-]. right. eexists id, _. rewrite lookup_insert_eq.
        split; [done|]. simpl. split; [done|]. rewrite Hf.
        apply elem_of_app. right. by apply list_elem_of_singleton.
Qed.

Lemma paced_inv_run (prebaked : list ImportInfo) (es : list event)
    (sv : server) :
  ids_fresh sv → paced_inv sv → paced prebaked es sv = true →
  paced_inv (events_run prebaked es sv).
Proof.
  revert sv. induction es as [|e es IH]; intros sv Hfresh Hinv; [done|].
  cbn [paced events_run foldl]. intros [Hal Hrest]%andb_true_iff.
  apply IH; [by apply ids_fresh_step| |done].
  destruct e as [[p lines|p|]|id]; simpl in *.
  - apply paced_inv_scanFile; [done| |done].
    by apply bool_decide_eq_true in Hal.
  - apply paced_inv_removeFile; [|done]. by apply bool_decide_eq_true in Hal.
  - unfold getCompletions, paced_inv in *.
    by destruct (completions (server_db sv)).
  - by apply paced_inv_emit.
Qed.

Lemma paced_rows_exact_aux (prebaked : list ImportInfo) (es : list event)
    (p n : string) :
  paced prebaked es new_server = true →
  idle_on p (events_run prebaked es new_server) →
  n ∈ listed p (server_db (events_run prebaked es new_server))
  ↔ ∃ i, JsMap.get n
           (imports (server_db (events_run prebaked es new_server)))
         = Some i
       ∧ sourcepath i = p.
Proof.
  intros Hpaced Hidle. split.
  - destruct (server_inv_run prebaked es) as (Hrows & _). apply Hrows.
  - intros (i & Hi & <-).
    assert (Hf0 : ids_fresh new_server).
    { intros id r. simpl. by rewrite lookup_empty. }
    assert (Hi0 : paced_inv new_server).
    { split; [|split]; simpl.
      - intros n' i' H. discriminate H.
      - intros id id' r r'. by rewrite lookup_empty.
      - intros id r. by rewrite lookup_empty. }
    destruct (paced_inv_run prebaked es new_server Hf0 Hi0 Hpaced)
      as (Hb & _).
    destruct (Hb n i Hi) as [Hin|(id & r & Hr & Hp & _)]; [done|].
    by destruct (Hidle id r Hr).
Qed.

(** X21.  When every [scanFile] and [removeFile] call about a path is made
    while no reader scans that path, readers of different paths may take
    turns as they like: for a path that no reader scans, the reverse
    mapping lists exactly the namespaces whose entry has that path as
    [sourcepath]. *)
Theorem paced_rows_exact (prebaked : list ImportInfo) (es : list event)
    (p n : string) :
  paced prebaked es new_server = true →
  idle_on p (events_run prebaked es new_server) →
  n ∈ listed p (server_db (events_run prebaked es new_server))
  ↔ ∃ i, JsMap.get n
           (imports (server_db (events_run prebaked es new_server)))
         = Some i
       ∧ sourcepath i = p.
Proof. apply paced_rows_exact_aux. Qed.

Lemma paced_rows_exact_witness :
  "goog.events.EventTarget"
  ∈ listed "both.d.ts"
      (server_db (events_run sample_prebaked alternating_scans new_server))
  ↔ ∃ i, JsMap.get "goog.events.EventTarget"
           (imports (server_db
                       (events_run sample_prebaked alternating_scans
                          new_server)))
         = Some i
       ∧ sourcepath i = "both.d.ts".
Proof.
  apply (paced_rows_exact sample_prebaked alternating_scans "both.d.ts"
           "goog.events.EventTarget").
  - vm_compute. reflexivity.
  - unfold idle_on.
    assert (E : readers
                  (events_run sample_prebaked alternating_scans new_server)
                = ∅) by (vm_compute; reflexivity).
    rewrite E. apply map_Forall_empty.
Defined.

(** * Entries stay, and skip-runs *)

(** X22.  An entry of the forward map is never overwritten: an event
    changes or removes the entry under [n] only when it is a [removeFile]
    or [scanFile] call for a path whose row lists [n]. *)
Theorem entry_stays (prebaked : list ImportInfo) (sv : server) (e : event)
    (n : string) (i : ImportInfo) :
  JsMap.get n (imports (server_db sv)) = Some i →
  (∀ c, e = Call c → n ∉ listed (call_path c) (server_db sv)) →
  JsMap.get n (imports (server_db (step prebaked sv e))) = Some i.
Proof.
  intros Hget Hcall. destruct e as [[p lines|p|]|id]; simpl.
  - rewrite removeFile_get, decide_False; [done|]. by apply (Hcall _ eq_refl).
  - rewrite removeFile_get, decide_False; [done|]. by apply (Hcall _ eq_refl).
  - unfold getCompletions. by destruct (completions (server_db sv)).
  - unfold emit. destruct (readers sv !! id) as [r|]; [|done].
    destruct (reader_pending r) as [|l ls]; simpl.
    + by rewrite on_close_imports.
    + destruct (on_line_effect (reader_path r) l (imports (server_db sv))
                  (reader_locals r)) as [[-> _]|(info & _ & -> & _)]; [done|].
      by rewrite get_app, Hget.
Qed.

Lemma entry_stays_witness :
  JsMap.get "goog.dom"
    (imports (server_db
       (step sample_prebaked two_files_server
          (Call (ScanFile "/w/ui.d.ts" dom_file)))))
  = Some {| name := "dom"; namespace := "goog.dom"; module := true;
            sourcepath := "/w/dom.d.ts" |}.
Proof.
  apply (entry_stays sample_prebaked two_files_server
           (Call (ScanFile "/w/ui.d.ts" dom_file)) "goog.dom").
  - vm_compute. reflexivity.
  - intros c [= <-].
    replace (listed (call_path (ScanFile "/w/ui.d.ts" dom_file))
               (server_db two_files_server))
      with ["goog.ui.Button"] by (vm_compute; reflexivity).
    intros H%list_elem_of_singleton. discriminate H.
Defined.

Lemma plain_text_inv (ns : string) :
  plain_text ns = true →
  ns ≠ "" ∧ dots_only ns = true ∧ quote_free ns = true.
Proof.
  unfold plain_text. intros H.
  apply andb_prop in H as [H H3]. apply andb_prop in H as [H1 H2].
  split; [intros ->; discriminate H1|]. by split.
Qed.

Lemma on_line_declare_line (path ns : string)
    (m : list (string * ImportInfo)) (st : Scan.locals) :
  plain_text ns = true →
  on_line path (m, st) ("declare module 'goog:" +:+ ns +:+ "' {")
  = (m, on_declare ns st).
Proof.
  intros (Hne & Hd & _)%plain_text_inv. unfold on_line.
  change ("declare module 'goog:" +:+ ns +:+ "' {")
    with (declare_prefix +:+ ns +:+ "'" +:+ " {").
  by rewrite capture_after_prefix.
Qed.

Lemma on_line_inactive (path l : string) (m : list (string * ImportInfo))
    (st : Scan.locals) :
  Scan.namespace st = "" → match_declare l = None →
  on_line path (m, st) l = (m, st).
Proof. intros Hns Hl. unfold on_line. rewrite Hl. simpl. by rewrite Hns. Qed.

(** A block whose namespace the checks drop leaves only what
    [on_declare] did. *)
Lemma block_dropped (path ns : string) (b : bool)
    (m : list (string * ImportInfo)) (st : Scan.locals) :
  plain_text ns = true → Scan.namespace (on_declare ns st) = "" →
  foldl (on_line path) (m, st) (module_block ns (marker b))
  = (m, on_declare ns st).
Proof.
  intros Hplain Hdrop. unfold module_block. cbn [foldl].
  rewrite on_line_declare_line by done.
  rewrite on_line_inactive; [|done|].
  2:{ apply match_declare_quote_free.
      apply plain_text_inv in Hplain as (_ & _ & Hq).
      unfold quote_free in *. by rewrite !all_chars_app, Hq. }
  rewrite on_line_inactive; [|done|].
  2:{ by destruct b; vm_compute. }
  by rewrite on_line_brace.
Qed.

Lemma deprecated_plain (D : string) :
  D ∈ deprecated → plain_text D = true ∧ blacklisted D = false.
Proof.
  unfold deprecated. intros HD%elem_of_list_to_set.
  repeat (apply elem_of_cons in HD as [->|HD];
          [split; vm_compute; reflexivity|]).
  by apply elem_of_nil in HD.
Qed.

Lemma scan_skip_run (path D : string) (b : bool)
    (children : list (string * bool)) (m : list (string * ImportInfo)) :
  D ∈ deprecated →
  Forall (λ d, plain_text d.1 = true ∧ startsWith d.1 (D +:+ ".") = true)
    children →
  scan_lines path (print_blocks ((D, b) :: children)) m
  = (m, {| Scan.namespace := ""; Scan.name := ""; Scan.skip := D +:+ ".";
           Scan.found := [] |}).
Proof.
  intros HD Hall. destruct (deprecated_plain D HD) as [Hplain Hbl].
  unfold scan_lines.
  change (print_blocks ((D, b) :: children))
    with (module_block D (marker b) ++ print_blocks children).
  rewrite foldl_app.
  assert (Hfirst : on_declare D Scan.init
                   = {| Scan.namespace := ""; Scan.name := "";
                        Scan.skip := D +:+ "."; Scan.found := [] |}).
  { unfold on_declare. simpl. rewrite Hbl.
    by rewrite (bool_decide_eq_true_2 _ HD). }
  rewrite block_dropped; [|done|by rewrite Hfirst]. rewrite Hfirst.
  clear Hfirst. induction Hall as [|[ns b'] rest [Hp Hs] _ IH]; [done|].
  change (print_blocks ((ns, b') :: rest))
    with (module_block ns (marker b') ++ print_blocks rest).
  rewrite foldl_app.
  assert (Hstep : on_declare ns
                    {| Scan.namespace := ""; Scan.name := "";
                       Scan.skip := D +:+ "."; Scan.found := [] |}
                  = {| Scan.namespace := ""; Scan.name := "";
                       Scan.skip := D +:+ "."; Scan.found := [] |}).
  { unfold on_declare. cbn [Scan.set_namespace Scan.skip Scan.namespace
                             Scan.name Scan.found].
    simpl in Hs. rewrite Hs.
    assert (Ht : truthy (D +:+ ".") = true) by (by destruct D).
    by rewrite Ht. }
  rewrite block_dropped; [|done|by rewrite Hstep]. by rewrite Hstep.
Qed.

(** X23.  A file that declares a deprecated namespace and, block after
    block, namespaces that start with it and a dot, indexes none of them:
    a scan of it that nothing interrupts does what [removeFile] does. *)
Theorem scanFile_skip_run (path D : string) (b : bool)
    (children : list (string * bool)) (db : ImportDB) :
  D ∈ deprecated →
  Forall (λ d, plain_text d.1 = true ∧ startsWith d.1 (D +:+ ".") = true)
    children →
  scan_whole path (print_blocks ((D, b) :: children)) db = removeFile path db.
Proof.
  intros HD Hall. apply scan_whole_found_nil.
  by rewrite (scan_skip_run path D b children _ HD Hall).
Qed.

Lemma scanFile_skip_run_witness :
  scan_whole "ui.d.ts"
    (print_blocks [("goog.ui.TabPane", false);
                   ("goog.ui.TabPane.Events", false);
                   ("goog.ui.TabPane.TabPage", true)])
    two_files_db
  = removeFile "ui.d.ts" two_files_db.
Proof.
  apply (scanFile_skip_run "ui.d.ts" "goog.ui.TabPane" false
           [("goog.ui.TabPane.Events", false);
            ("goog.ui.TabPane.TabPage", true)] two_files_db).
  - unfold deprecated. apply elem_of_list_to_set. rewrite !elem_of_cons.
    repeat (first [left; reflexivity | right]).
  - repeat constructor; vm_compute; reflexivity.
Defined.

(** * Scans whose reader nothing interrupts *)

Lemma events_run_app (prebaked : list ImportInfo) (es1 es2 : list event)
    (sv : server) :
  events_run prebaked (es1 ++ es2) sv
  = events_run prebaked es2 (events_run prebaked es1 sv).
Proof. apply foldl_app. Qed.

Lemma scan_events_run (prebaked : list ImportInfo) (p : string)
    (lines : list string) (sv : server) :
  readers sv !! started sv = None →
  events_run prebaked (scan_events p lines (started sv)) sv
  = {| server_db := scan_whole p lines (server_db sv);
       readers := readers sv;
       started := S (started sv) |}.
Proof. apply scan_uninterrupted_aux. Qed.

Lemma ids_fresh_next (sv : server) (k : nat) :
  ids_fresh sv → readers sv !! (k + started sv)%nat = None.
Proof.
  intros H. destruct (readers sv !! (k + started sv)%nat) as [r|] eqn:Hr;
    [|done].
  apply H in Hr. lia.
Qed.

Lemma ids_fresh_new : ids_fresh new_server.
Proof. intros id r. simpl. by rewrite lookup_empty. Qed.

(** Two scans in a row, each uninterrupted. *)
Lemma scan_events_twice (prebaked : list ImportInfo) (p q : string)
    (lines lines' : list string) (sv : server) :
  ids_fresh sv →
  events_run prebaked
    (scan_events p lines (started sv)
     ++ scan_events q lines' (S (started sv))) sv
  = {| server_db := scan_whole q lines' (scan_whole p lines (server_db sv));
       readers := readers sv;
       started := S (S (started sv)) |}.
Proof.
  intros Hfresh. rewrite events_run_app.
  rewrite scan_events_run by apply (ids_fresh_next sv 0 Hfresh).
  set (sv1 := {| server_db := scan_whole p lines (server_db sv);
                 readers := readers sv; started := S (started sv) |}).
  change (S (started sv)) with (started sv1) at 1.
  rewrite scan_events_run; [done|]. apply (ids_fresh_next sv 1 Hfresh).
Qed.

(** X1.  When [scanFile p] returns it has done what [removeFile p] does and
    nothing more: [p] has no row.  Once its reader has emitted every line and
    closed, nothing else having run in between, the row of [p] lists the
    namespaces the content declares that have no entry in the index without
    [p]'s entries, in the order of the content. *)
Theorem scanFile_lists (prebaked : list ImportInfo) (p : string)
    (lines : list string) (sv : server) :
  readers sv !! started sv = None →
  server_db (scanFile p lines sv) = removeFile p (server_db sv)
  ∧ listed p (server_db (scanFile p lines sv)) = []
  ∧ listed p
      (server_db (events_run prebaked (scan_events p lines (started sv)) sv))
    = filter (λ n, JsMap.has n (imports (removeFile p (server_db sv))) = false)
        (declares lines).
Proof.
  intros Hfresh. split; [done|]. split.
  - apply removeFile_listed_same.
  - rewrite scan_events_run by done. apply scan_whole_lists.
Qed.

Lemma scanFile_lists_witness :
  listed "both.d.ts"
    (server_db
       (events_run sample_prebaked
          (scan_events "both.d.ts" dom_events_file
             (started (events_run sample_prebaked
                         (scan_events "dom.d.ts" dom_file 0) new_server)))
          (events_run sample_prebaked (scan_events "dom.d.ts" dom_file 0)
             new_server)))
  = ["goog.events.EventTarget"].
Proof.
  set (sv := events_run sample_prebaked (scan_events "dom.d.ts" dom_file 0)
               new_server).
  assert (Hfresh : readers sv !! started sv = None)
    by (vm_compute; reflexivity).
  destruct (scanFile_lists sample_prebaked "both.d.ts" dom_events_file sv
              Hfresh) as (_ & _ & Hrow).
  rewrite Hrow. vm_compute. reflexivity.
Defined.

(** X2.  Scanning the same content for the same path twice, the first
    reader closing before the second call and nothing else running in
    between, gives the index of the first scan. *)
Theorem scanFile_idempotent (prebaked : list ImportInfo) (p : string)
    (lines : list string) (sv : server) :
  ids_fresh sv →
  server_db
    (events_run prebaked
       (scan_events p lines (started sv)
        ++ scan_events p lines (S (started sv))) sv)
  = server_db (events_run prebaked (scan_events p lines (started sv)) sv).
Proof.
  intros Hfresh. rewrite scan_events_twice by done.
  rewrite scan_events_run by apply (ids_fresh_next sv 0 Hfresh).
  apply scan_whole_twice.
Qed.

Lemma scanFile_idempotent_witness :
  server_db
    (events_run sample_prebaked
       (scan_events "both.d.ts" dom_events_file (started new_server)
        ++ scan_events "both.d.ts" dom_events_file (S (started new_server)))
       new_server)
  = server_db
      (events_run sample_prebaked
         (scan_events "both.d.ts" dom_events_file (started new_server))
         new_server).
Proof.
  apply (scanFile_idempotent sample_prebaked "both.d.ts" dom_events_file
           new_server).
  apply ids_fresh_new.
Defined.

(** X4.  [removeFile p] called once the reader of [scanFile p] has closed,
    nothing else having run since the scan was called, leaves the forward
    map, order included, and the reverse mapping as [removeFile p] alone
    does. *)
Theorem removeFile_after_scanFile (prebaked : list ImportInfo) (p : string)
    (lines : list string) (sv : server) :
  readers sv !! started sv = None →
  imports
    (server_db
       (events_run prebaked
          (scan_events p lines (started sv) ++ [Call (RemoveFile p)]) sv))
  = imports (removeFile p (server_db sv))
  ∧ files
      (server_db
         (events_run prebaked
            (scan_events p lines (started sv) ++ [Call (RemoveFile p)]) sv))
    = files (removeFile p (server_db sv)).
Proof.
  intros Hfresh. rewrite events_run_app, scan_events_run by done.
  apply removeFile_after_scan_whole.
Qed.

Lemma removeFile_after_scanFile_witness :
  imports
    (server_db
       (events_run sample_prebaked
          (scan_events "/w/ui.d.ts" tabpane_file (started two_files_server)
           ++ [Call (RemoveFile "/w/ui.d.ts")]) two_files_server))
  = imports (removeFile "/w/ui.d.ts" (server_db two_files_server)).
Proof.
  assert (Hfresh : readers two_files_server !! started two_files_server
                   = None) by (vm_compute; reflexivity).
  destruct (removeFile_after_scanFile sample_prebaked "/w/ui.d.ts"
              tabpane_file two_files_server Hfresh) as [Himports _].
  exact Himports.
Defined.

(** C6 as the code has it.  When the content declares every namespace listed
    for [p] and every namespace the content declares has an entry in the
    index, [scanFile p] on that content, its reader emitting every line and
    closing before anything else runs, lists for [p] the same set of
    namespaces as before the call. *)
Theorem rescan_same_set (prebaked : list ImportInfo) (p : string)
    (lines : list string) (sv : server) (n : string) :
  readers sv !! started sv = None →
  (∀ k, k ∈ listed p (server_db sv) → k ∈ declares lines) →
  (∀ k, k ∈ declares lines → is_Some (JsMap.get k (imports (server_db sv)))) →
  n ∈ listed p
        (server_db
           (events_run prebaked (scan_events p lines (started sv)) sv))
  ↔ n ∈ listed p (server_db sv).
Proof.
  intros Hfresh Hsub Hheld. rewrite scan_events_run by done.
  by apply rescan_same_set_whole.
Qed.

Lemma rescan_same_set_witness :
  "goog.ui.Button"
  ∈ listed "/w/ui.d.ts"
      (server_db
         (events_run sample_prebaked
            (scan_events "/w/ui.d.ts" tabpane_file (started two_files_server))
            two_files_server))
  ↔ "goog.ui.Button" ∈ listed "/w/ui.d.ts" (server_db two_files_server).
Proof.
  apply (rescan_same_set sample_prebaked "/w/ui.d.ts" tabpane_file
           two_files_server "goog.ui.Button").
  - vm_compute. reflexivity.
  - intros k Hk.
    replace (listed "/w/ui.d.ts" (server_db two_files_server))
      with ["goog.ui.Button"] in Hk by (vm_compute; reflexivity).
    replace (declares tabpane_file) with ["goog.ui.Button"]
      by (vm_compute; reflexivity).
    done.
  - intros k Hk.
    replace (declares tabpane_file) with ["goog.ui.Button"] in Hk
      by (vm_compute; reflexivity).
    apply list_elem_of_singleton in Hk as ->. vm_compute. by eexists.
Defined.

(** C6 as stated fails: [both.d.ts] declares [goog.dom] and
    [goog.events.EventTarget] and was scanned while [dom.d.ts] held
    [goog.dom]; once [dom.d.ts] is removed, scanning [both.d.ts] again on the
    same content lists [goog.dom] for it as well.  No two readers are at
    work at once. *)
Lemma rescan_picks_up_freed_namespace :
  listed "both.d.ts"
    (server_db (events_run sample_prebaked owner_removed new_server))
  = ["goog.events.EventTarget"]
  ∧ readers (events_run sample_prebaked owner_removed new_server) = ∅
  ∧ listed "both.d.ts"
      (server_db
         (events_run sample_prebaked
            (owner_removed ++ scan_events "both.d.ts" dom_events_file 2)
            new_server))
    = ["goog.dom"; "goog.events.EventTarget"].
Proof. repeat split; vm_compute; reflexivity. Qed.




(** * The reverse mapping while readers are at work *)





(** * Suggestions and their cache while readers are at work *)

Lemma get_Some_values {V : Type} (k : string) (v : V)
    (m : list (string * V)) :
  JsMap.get k m = Some v → v ∈ JsMap.values m.
Proof.
  intros H%get_Some_elem_of. unfold JsMap.values.
  apply list_elem_of_In, in_map_iff. exists (k, v).
  split; [done|]. by apply list_elem_of_In.
Qed.

Lemma completion_sources_app (prebaked : list ImportInfo)
    (m : list (string * ImportInfo)) :
  completion_sources prebaked m
  = JsMap.values m
    ++ (if JsMap.has "goog.ui.Component" m then [] else prebaked).
Proof.
  unfold completion_sources.
  destruct (JsMap.has _ _); simpl; [by rewrite app_nil_r|done].
Qed.

Lemma cache_older_removeFile (p : string) (db : ImportDB) :
  cache_older db → cache_older (removeFile p db).
Proof.
  intros H a. rewrite removeFile_completions, removeFile_allocated.
  destruct (files db !! p); [done|apply H].
Qed.

Lemma cache_older_step (prebaked : list ImportInfo) (sv : server)
    (e : event) :
  cache_older (server_db sv) → cache_older (server_db (step prebaked sv e)).
Proof.
  intros H. destruct e as [[p lines|p|]|id]; simpl.
  - by apply cache_older_removeFile.
  - by apply cache_older_removeFile.
  - unfold getCompletions. destruct (completions (server_db sv)) eqn:Hc;
      [done|].
    intros a [= <-]. simpl. lia.
  - unfold emit. destruct (readers sv !! id) as [r|]; [|done].
    destruct (reader_pending r) as [|l ls]; simpl.
    + unfold on_close. destruct (0 <? _); [by intros a|apply H].
    + apply H.
Qed.

Lemma cache_older_run (prebaked : list ImportInfo) (es : list event) :
  cache_older (server_db (events_run prebaked es new_server)).
Proof.
  unfold events_run.
  apply (foldl_preserves (λ sv, cache_older (server_db sv))).
  - by intros a.
  - intros sv e. apply cache_older_step.
Qed.

(** C5 as the code has it.  When [getCompletions] builds the array, and so
    whenever no reader at work has added an entry, whatever the order in
    which calls and events ran, it returns one suggestion per entry of the
    index, in the order of the index, followed by one per prebaked entry
    exactly when the index has no key [goog.ui.Component]; the single text
    edit of the suggestion for an entry inserts at line 0, column 0 the
    text [import ], [* as ] when the entry is a module, its name,
    [ from 'goog:], its namespace, and a quote, a semicolon and a line feed.
    An index that holds [goog.ui.Component] alone yields the one text
    [import Component from 'goog:goog.ui.Component';] and a line feed. *)
Theorem getCompletions_suggestions (prebaked : list ImportInfo)
    (es : list event) (db : ImportDB) (n : string) (i : ImportInfo) :
  (completions db = None →
   array_items (getCompletions prebaked db).1
   = (λ i, {| label := name i;
              detail := "Auto import " +:+ namespace i;
              kind := if module i then KindModule else KindClass;
              additionalTextEdits :=
                [ {| range :=
                       {| range_start := {| line := 0; character := 0 |};
                          range_end := {| line := 0; character := 0 |} |};
                     newText :=
                       "import " +:+ (if module i then "* as " else "")
                       +:+ name i +:+ " from 'goog:" +:+ namespace i
                       +:+ "';" +:+ String "010" "" |} ];
              commitCharacters := ["."] |})
     <$> (JsMap.values (imports db)
          ++ (if JsMap.has "goog.ui.Component" (imports db)
              then [] else prebaked)))
  ∧ ((∀ id r, readers (events_run prebaked es new_server) !! id = Some r →
              Scan.found (reader_locals r) = []) →
     array_items
       (getCompletions prebaked
          (server_db (events_run prebaked es new_server))).1
     = (λ i, {| label := name i;
                detail := "Auto import " +:+ namespace i;
                kind := if module i then KindModule else KindClass;
                additionalTextEdits :=
                  [ {| range :=
                         {| range_start := {| line := 0; character := 0 |};
                            range_end := {| line := 0; character := 0 |} |};
                       newText :=
                         "import " +:+ (if module i then "* as " else "")
                         +:+ name i +:+ " from 'goog:" +:+ namespace i
                         +:+ "';" +:+ String "010" "" |} ];
                commitCharacters := ["."] |})
       <$> (JsMap.values
              (imports (server_db (events_run prebaked es new_server)))
            ++ (if JsMap.has "goog.ui.Component"
                     (imports (server_db (events_run prebaked es new_server)))
                then [] else prebaked))
     ∧ (JsMap.get n (imports (server_db (events_run prebaked es new_server)))
        = Some i →
        ∃ item,
          item
          ∈ array_items
              (getCompletions prebaked
                 (server_db (events_run prebaked es new_server))).1
          ∧ label item = name i
          ∧ additionalTextEdits item
            = [ {| range :=
                     {| range_start := {| line := 0; character := 0 |};
                        range_end := {| line := 0; character := 0 |} |};
                   newText :=
                     "import " +:+ (if module i then "* as " else "")
                     +:+ name i +:+ " from 'goog:" +:+ namespace i
                     +:+ "';" +:+ String "010" "" |} ]))
  ∧ newText
    <$> concat
          (additionalTextEdits
           <$> array_items
                 (getCompletions prebaked
                    (server_db
                       (events_run prebaked
                          (scan_events "c.d.ts" component_file 0)
                          new_server))).1)
    = [ "import Component from 'goog:goog.ui.Component';"
        +:+ String "010" "" ].
Proof.
  split; [|split].
  - intros Hnone. unfold getCompletions. rewrite Hnone.
    cbn [fst array_items]. by rewrite completion_sources_app.
  - intros Hidle.
    assert (Hitems :
      array_items
        (getCompletions prebaked
           (server_db (events_run prebaked es new_server))).1
      = completion_item
        <$> (JsMap.values
               (imports (server_db (events_run prebaked es new_server)))
             ++ (if JsMap.has "goog.ui.Component"
                      (imports (server_db (events_run prebaked es new_server)))
                 then [] else prebaked))).
    { rewrite <-completion_sources_app. apply getCompletions_items.
      destruct (cache_idle_run prebaked es) as [_ H]. by apply H. }
    split; [exact Hitems|].
    intros Hget%get_Some_values. exists (completion_item i).
    split; [|by split]. rewrite Hitems. apply list_elem_of_fmap.
    exists i. split; [done|]. apply elem_of_app. by left.
  - vm_compute. reflexivity.
Qed.

Lemma getCompletions_suggestions_witness :
  newText
  <$> concat
        (additionalTextEdits
         <$> array_items
               (getCompletions sample_prebaked
                  (server_db
                     (events_run sample_prebaked alternating_scans
                        new_server))).1)
  = [ "import * as dom from 'goog:goog.dom';" +:+ String "010" "";
      "import EventTarget from 'goog:goog.events.EventTarget';"
      +:+ String "010" "";
      "import Component from 'goog:goog.ui.Component';" +:+ String "010" "";
      "import * as dom from 'goog:goog.dom';" +:+ String "010" "" ].
Proof.
  assert (Hidle : ∀ id r,
            readers (events_run sample_prebaked alternating_scans new_server)
            !! id = Some r →
            Scan.found (reader_locals r) = []).
  { intros id r.
    replace (readers (events_run sample_prebaked alternating_scans new_server))
      with (∅ : gmap nat reader) by (vm_compute; reflexivity).
    by rewrite lookup_empty. }
  destruct (getCompletions_suggestions sample_prebaked alternating_scans
              new_ImportDB "goog.dom"
              {| name := "dom"; namespace := "goog.dom"; module := true;
                 sourcepath := "both.d.ts" |}) as (_ & Hidle' & _).
  destruct (Hidle' Hidle) as [Hitems _]. rewrite Hitems.
  vm_compute. reflexivity.
Defined.

(** C5 as stated fails: [getCompletions] is called right after [scanFile]
    returns and fills the cache; then the reader emits the lines that index
    [goog.ui.Button].  The index has the entry, and the next
    [getCompletions] returns the cached array, which has no suggestion for
    it. *)
Lemma getCompletions_misses_entry :
  namespace
  <$> JsMap.values
        (imports (server_db
                    (events_run sample_prebaked mid_scan_completions
                       new_server)))
  = ["goog.ui.Button"]
  ∧ label
    <$> array_items
          (getCompletions sample_prebaked
             (server_db
                (events_run sample_prebaked mid_scan_completions
                   new_server))).1
    = ["Component"; "dom"].
Proof. split; vm_compute; reflexivity. Qed.

(** C8 as the code has it.  With the cache set, [getCompletions] returns the
    cached array and the index as it was; a second call right after a first
    returns the same array and changes nothing.  A ['line'] event leaves the
    cache as it is, also when it adds a namespace.  The ['close'] event of a
    reader that has added nothing leaves the index as it is; the ['close']
    event of a reader that has added at least one namespace unsets the
    cache, so that the next [getCompletions] builds a new array, different
    from the one cached before, holding the suggestions of the index as it
    is then. *)
Theorem getCompletions_cache (prebaked : list ImportInfo) (es : list event)
    (db : ImportDB) (a : CompletionArray) (id : nat) (r : reader) :
  (completions db = Some a → getCompletions prebaked db = (a, db))
  ∧ getCompletions prebaked (getCompletions prebaked db).2
    = getCompletions prebaked db
  ∧ (readers (events_run prebaked es new_server) !! id = Some r →
     (reader_pending r ≠ [] →
      completions (server_db (emit id (events_run prebaked es new_server)))
      = completions (server_db (events_run prebaked es new_server)))
     ∧ (reader_pending r = [] → Scan.found (reader_locals r) = [] →
        server_db (emit id (events_run prebaked es new_server))
        = server_db (events_run prebaked es new_server))
     ∧ (reader_pending r = [] → Scan.found (reader_locals r) ≠ [] →
        completions (server_db (emit id (events_run prebaked es new_server)))
        = None
        ∧ (completions (server_db (events_run prebaked es new_server))
           = Some a →
           array_id
             (getCompletions prebaked
                (server_db (emit id (events_run prebaked es new_server)))).1
           ≠ array_id a)
        ∧ array_items
            (getCompletions prebaked
               (server_db (emit id (events_run prebaked es new_server)))).1
          = completion_item
            <$> completion_sources prebaked
                  (imports
                     (server_db
                        (emit id (events_run prebaked es new_server)))))).
Proof.
  split; [|split].
  - intros H. unfold getCompletions. by rewrite H.
  - unfold getCompletions. by destruct (completions db) eqn:H; simpl; rewrite ?H.
  - pose proof (cache_older_run prebaked es) as Holder.
    set (sv := events_run prebaked es new_server) in *.
    intros Hr. unfold emit. rewrite Hr. split; [|split].
    + destruct (reader_pending r) as [|l ls]; [done|]. by intros _.
    + intros -> Hnil. cbn [server_db]. unfold on_close. cbn [fst snd].
      rewrite Hnil. simpl. by destruct (server_db sv).
    + intros -> Hfound. cbn [server_db].
      assert (Hnone : completions
                (on_close (reader_path r) (server_db sv)
                   (imports (server_db sv), reader_locals r)) = None).
      { unfold on_close. cbn [snd].
        by destruct (Scan.found (reader_locals r)). }
      split; [done|]. unfold getCompletions. rewrite Hnone.
      cbn [fst array_id array_items]. split; [|done].
      intros Ha%Holder. rewrite on_close_allocated. lia.
Qed.

Lemma getCompletions_cache_witness :
  completions
    (server_db
       (emit 0
          (events_run sample_prebaked (mid_scan_completions ++ [Emit 0%nat])
             new_server)))
  = None.
Proof.
  destruct (getCompletions_cache sample_prebaked
              (mid_scan_completions ++ [Emit 0%nat]) new_ImportDB
              {| array_id := 0; array_items := [] |} 0
              {| reader_path := "ui.d.ts"; reader_pending := [];
                 reader_locals :=
                   {| Scan.namespace := "goog.ui.Button";
                      Scan.name := "Button"; Scan.skip := "";
                      Scan.found := ["goog.ui.Button"] |} |})
    as (_ & _ & Hevent).
  destruct Hevent as (_ & _ & Hclose); [vm_compute; reflexivity|].
  destruct Hclose as [Hnone _]; [reflexivity|discriminate|].
  exact Hnone.
Defined.

(** C8 as stated fails: the ['line'] event that adds [goog.ui.Button] to the
    index leaves the cache set, and [getCompletions] called after it returns
    the array it returned before the entry was added. *)
Lemma cache_kept_by_line_event :
  JsMap.get "goog.ui.Button"
    (imports (server_db
                (events_run sample_prebaked
                   [ Call (ScanFile "ui.d.ts" tabpane_file);
                     Call GetCompletions ] new_server)))
  = None
  ∧ is_Some
      (JsMap.get "goog.ui.Button"
         (imports (server_db
                     (events_run sample_prebaked mid_scan_completions
                        new_server))))
  ∧ (getCompletions sample_prebaked
       (server_db
          (events_run sample_prebaked mid_scan_completions new_server))).1
    = (getCompletions sample_prebaked
         (server_db
            (events_run sample_prebaked
               [ Call (ScanFile "ui.d.ts" tabpane_file);
                 Call GetCompletions ] new_server))).1
  ∧ is_Some
      (completions
         (server_db
            (events_run sample_prebaked mid_scan_completions new_server))).
Proof.
  split; [vm_compute; reflexivity|]. split; [vm_compute; by eexists|].
  split; [vm_compute; reflexivity|]. vm_compute. by eexists.
Qed.

(** * Rows and keys, whatever the interleaving *)

Lemma rows_inv_step (prebaked : list ImportInfo) (sv : server) (e : event) :
  server_inv sv → rows_inv sv → rows_inv (step prebaked sv e).
Proof.
  intros (_ & Hfound & _) [Hrows Hnd].
  destruct e as [[p lines|p|]|id]; simpl.
  - unfold scanFile. split; [by apply rows_ok_removeFile|].
    intros id r. simpl. rewrite lookup_insert. case_decide; [|apply Hnd].
    intros [= <-]. apply NoDup_nil_2.
  - split; [by apply rows_ok_removeFile|done].
  - split; [|done]. unfold getCompletions, rows_ok.
    by destruct (completions (server_db sv)).
  - unfold emit. destruct (readers sv !! id) as [r|] eqn:Hr; [|done].
    destruct (reader_pending r) as [|l ls].
    + split.
      * intros q ns. simpl. unfold on_close. cbn [fst snd].
        destruct (Scan.found (reader_locals r)) as [|n0 ns0] eqn:Hf; simpl.
        -- apply Hrows.
        -- rewrite lookup_insert. case_decide; [|apply Hrows].
           intros [= <-]. split; [done|]. rewrite <-Hf. by apply (Hnd id).
      * intros id' r'. simpl. intros [_ Hr']%lookup_delete_Some.
        by apply (Hnd id').
    + pose proof (on_line_effect (reader_path r) l (imports (server_db sv))
                    (reader_locals r)) as Heff.
      cbv zeta.
      destruct (on_line (reader_path r)
                  (imports (server_db sv), reader_locals r) l) as [m1 st1].
      cbn [fst snd] in *. split; [exact Hrows|].
      intros id' r'. simpl. rewrite lookup_insert. case_decide; [|apply Hnd].
      intros [= <-]. simpl.
      destruct Heff as [[_ ->]|(info & Hnone & _ & -> & _)];
        [by apply (Hnd id)|].
      apply NoDup_app. split; [by apply (Hnd id)|].
      split; [|apply NoDup_singleton].
      intros n Hn ->%list_elem_of_singleton.
      destruct (Hfound id r _ Hr Hn) as [(i & Hi & _) _]. congruence.
Qed.

Lemma rows_inv_run (prebaked : list ImportInfo) (es : list event) :
  rows_inv (events_run prebaked es new_server).
Proof.
  unfold events_run.
  apply (foldl_preserves (λ sv, server_inv sv ∧ rows_inv sv)).
  - split; [apply (server_inv_run prebaked [])|]. split.
    + intros p ns. simpl. by rewrite lookup_empty.
    + intros id r. simpl. by rewrite lookup_empty.
  - intros sv e [H1 H2]. split;
      [by apply server_inv_step|by apply rows_inv_step].
Qed.

(** X24.  Whatever the order in which calls and the events of the readers
    at work run, a row of the reverse mapping is never empty and never
    repeats a namespace, and no namespace is listed for two paths. *)
Theorem interleaved_rows_well_formed (prebaked : list ImportInfo)
    (es : list event) (p q n : string) (ns : list string) :
  (files (server_db (events_run prebaked es new_server)) !! p = Some ns →
   ns ≠ [] ∧ NoDup ns)
  ∧ (n ∈ listed p (server_db (events_run prebaked es new_server)) →
     n ∈ listed q (server_db (events_run prebaked es new_server)) → p = q).
Proof.
  split.
  - destruct (rows_inv_run prebaked es) as [Hrows _]. apply Hrows.
  - destruct (server_inv_run prebaked es) as (Hlisted & _).
    intros (i & Hi & <-)%Hlisted (j & Hj & <-)%Hlisted. congruence.
Qed.

(** C7.  A blacklisted namespace on a declaration line leaves no active
    namespace, arms no skip-run (the run keeps its prefix or is cleared) and
    adds nothing to what was found; with no active namespace a line that is
    no declaration changes nothing; no key of the index is blacklisted,
    after calls that each wait for the reader of the one before as well as
    under every interleaving of calls and reader events; and a file
    declaring [goog.i18n.DateTimeSymbols.foo] with an export marker indexes
    nothing. *)
Theorem blacklist_suppression (prebaked : list ImportInfo) (cs : list call)
    (es : list event) (path l ns : string) (m : list (string * ImportInfo))
    (st : Scan.locals) :
  (blacklisted ns = true →
   Scan.namespace (on_declare ns st) = ""
   ∧ (Scan.skip (on_declare ns st) = Scan.skip st
      ∨ Scan.skip (on_declare ns st) = "")
   ∧ Scan.found (on_declare ns st) = Scan.found st)
  ∧ (Scan.namespace st = "" → match_declare l = None →
     on_line path (m, st) l = (m, st))
  ∧ (blacklisted ns = true →
     JsMap.get ns (imports (run_whole prebaked cs new_ImportDB)) = None)
  ∧ (blacklisted ns = true →
     JsMap.get ns (imports (server_db (events_run prebaked es new_server)))
     = None)
  ∧ blacklisted "goog.i18n.DateTimeSymbols.foo" = true
  ∧ imports (scan_whole path symbols_file new_ImportDB) = []
  ∧ imports
      (server_db
         (events_run prebaked (scan_events path symbols_file 0) new_server))
    = [].
Proof.
  split; [|split; [|split; [|split; [|split; [|split]]]]].
  - intros Hb. split; [|split].
    + destruct (on_declare_namespace ns st) as [|[_ ?]]; [done|congruence].
    + unfold on_declare. simpl.
      destruct (truthy (Scan.skip st) && startsWith ns (Scan.skip st));
        [by left|].
      destruct (truthy (Scan.skip st)) eqn:Ht; simpl; rewrite Hb; simpl;
        [by right|by left].
    + apply on_declare_found.
  - intros Hns Hl. unfold on_line. rewrite Hl. simpl. by rewrite Hns.
  - intros Hb.
    destruct (JsMap.get ns (imports (run_whole prebaked cs new_ImportDB)))
      eqn:Hget; [|done].
    pose proof (no_blacklisted_key_run_whole prebaked cs ns) as H.
    rewrite Hget in H. rewrite H in Hb by eauto. done.
  - intros Hb.
    destruct (JsMap.get ns
                (imports (server_db (events_run prebaked es new_server))))
      eqn:Hget; [|done].
    destruct (server_entries_ok_run prebaked es) as (_ & H & _).
    specialize (H ns). rewrite Hget in H. rewrite H in Hb by eauto. done.
  - vm_compute. reflexivity.
  - vm_compute. reflexivity.
  - vm_compute. reflexivity.
Qed.

